(** * hdsentinel-mqtt: alias derivation, value coercion, sensor expansion
      and the publish loop of [app/hdsentinel_parser.py]

    A shallow embedding of the Python script and the properties its
    specification states about it.  Python [str] values are modelled as
    [string] (one [ascii] per character); on ASCII text, which is what
    HD Sentinel reports, [str.lower], [str.split], [\d], [[A-Z]] and
    [[a-z]] coincide with the definitions of module [Text]. *)

From Stdlib Require Import String Ascii List ZArith Lia Bool Arith.
From Stdlib Require Import Sorting.Sorted Sorting.Permutation.
From Stdlib Require Import Numbers.DecimalString.
Import ListNotations.
Open Scope string_scope.

Set Warnings "-register-all".

(* ------------------------------------------------------------------ *)
(** ** Characters, character classes and the regular expressions used    *)
(* ------------------------------------------------------------------ *)

Module Text.

Definition between (lo hi : nat) (c : ascii) : bool :=
  (lo <=? nat_of_ascii c)%nat && (nat_of_ascii c <=? hi)%nat.

(** [[A-Z]], [[a-z]], [\d] and [[a-zA-Z0-9]]. *)
Definition is_upper : ascii -> bool := between 65 90.
Definition is_lower : ascii -> bool := between 97 122.
Definition is_digit : ascii -> bool := between 48 57.
Definition is_alnum (c : ascii) : bool := is_upper c || is_lower c || is_digit c.

(** The separators of [str.split()] without argument: TAB, LF, VT, FF,
    CR, FS, GS, RS, US and the space. *)
Definition is_space (c : ascii) : bool := between 9 13 c || between 28 32 c.

Definition lower_char (c : ascii) : ascii :=
  if is_upper c then ascii_of_nat (nat_of_ascii c + 32) else c.

(** [s.lower()] *)
Fixpoint lower (s : string) : string :=
  match s with
  | EmptyString => EmptyString
  | String c r => String (lower_char c) (lower r)
  end.

(** [s.replace(a, b)] for one-character [a] and [b]. *)
Fixpoint replace_char (a b : ascii) (s : string) : string :=
  match s with
  | EmptyString => EmptyString
  | String c r => String (if Ascii.eqb c a then b else c) (replace_char a b r)
  end.

(** [s.lstrip(c)], [s.rstrip(c)] and [s.strip(c)] for a one-character
    argument. *)
Fixpoint lstrip (a : ascii) (s : string) : string :=
  match s with
  | EmptyString => EmptyString
  | String c r => if Ascii.eqb c a then lstrip a r else s
  end.

Fixpoint rstrip (a : ascii) (s : string) : string :=
  match s with
  | EmptyString => EmptyString
  | String c r =>
      match rstrip a r with
      | EmptyString => if Ascii.eqb c a then EmptyString else String c EmptyString
      | r' => String c r'
      end
  end.

Definition strip (a : ascii) (s : string) : string := rstrip a (lstrip a s).

(** [s.startswith(c)] for a one-character prefix. *)
Definition startswith (a : ascii) (s : string) : bool :=
  match s with
  | String c _ => Ascii.eqb c a
  | EmptyString => false
  end.

Definition is_empty (s : string) : bool :=
  match s with EmptyString => true | _ => false end.

(** [re.findall("[cls]+", s)]: the maximal runs of characters of the
    class, left to right; [cur] is the run being read. *)
Fixpoint runs (cls : ascii -> bool) (cur s : string) : list string :=
  match s with
  | EmptyString => if is_empty cur then [] else [cur]
  | String c r =>
      if cls c then runs cls (cur ++ String c EmptyString) r
      else if is_empty cur then runs cls EmptyString r
      else cur :: runs cls EmptyString r
  end.

Definition findall (cls : ascii -> bool) (s : string) : list string :=
  runs cls EmptyString s.

(** [s.split()]: the maximal runs of characters that are not
    separators. *)
Definition split (s : string) : list string :=
  findall (fun c => negb (is_space c)) s.

(** [re.sub("[cls]+", repl, s)]: every maximal run of the class becomes
    one [repl]; [in_run] says that the previous character was of the
    class. *)
Fixpoint sub_runs (cls : ascii -> bool) (repl : string) (in_run : bool)
         (s : string) : string :=
  match s with
  | EmptyString => EmptyString
  | String c r =>
      if cls c then
        if in_run then sub_runs cls repl true r
        else repl ++ sub_runs cls repl true r
      else String c (sub_runs cls repl false r)
  end.

(** [re.sub("([cls]+)", pre + r"\1", s)]: [pre] is inserted in front of
    every maximal run of the class. *)
Fixpoint mark_runs (cls : ascii -> bool) (pre : string) (in_run : bool)
         (s : string) : string :=
  match s with
  | EmptyString => EmptyString
  | String c r =>
      if cls c then
        if in_run then String c (mark_runs cls pre true r)
        else pre ++ String c (mark_runs cls pre true r)
      else String c (mark_runs cls pre false r)
  end.

Definition next_is (cls : ascii -> bool) (s : string) : bool :=
  match s with
  | String c _ => cls c
  | EmptyString => false
  end.

(** [re.sub("([A-Z][a-z]+)", pre + r"\1", s)]: a match starts at an
    upper-case letter that is followed by a lower-case one and takes all
    the lower-case letters that follow; [in_match] says that the
    previous character belongs to a match. *)
Fixpoint mark_capitalised (pre : string) (in_match : bool) (s : string)
  : string :=
  match s with
  | EmptyString => EmptyString
  | String c r =>
      if in_match && is_lower c then String c (mark_capitalised pre true r)
      else if is_upper c && next_is is_lower r
           then pre ++ String c (mark_capitalised pre true r)
           else String c (mark_capitalised pre false r)
  end.

(** [sep.join(parts)] *)
Definition join (sep : string) (parts : list string) : string :=
  String.concat sep parts.

(** All characters of a string satisfy a predicate. *)
Fixpoint forallb (p : ascii -> bool) (s : string) : bool :=
  match s with
  | EmptyString => true
  | String c r => p c && forallb p r
  end.

Fixpoint existsb (p : ascii -> bool) (s : string) : bool :=
  match s with
  | EmptyString => false
  | String c r => p c || existsb p r
  end.

End Text.

(* ------------------------------------------------------------------ *)
(** ** Alias builder: [to_snake_case], [to_safe_id], [build_disk_alias]  *)
(* ------------------------------------------------------------------ *)

(** [value or default] on an optional string: [None] and the empty string
    are falsy. *)
Definition truthy_str (v : option string) : bool :=
  match v with
  | Some s => negb (Text.is_empty s)
  | None => false
  end.

Definition or_default (v : option string) (d : string) : string :=
  match v with
  | Some s => if Text.is_empty s then d else s
  | None => d
  end.

Definition to_snake_case (name : string) : string :=
  Text.lower
    (Text.join "_"
       (Text.split
          (Text.mark_capitalised " " false
             (Text.mark_runs Text.is_upper " " false
                (Text.replace_char "-" " " name))))).

Definition to_safe_id (value : option string) : string :=
  Text.lower
    (Text.strip "_"
       (Text.sub_runs (fun c => negb (Text.is_alnum c)) "_" false
          (or_default value ""))).

(** The serial suffix of an alias:
    [to_safe_id(serial_number) if serial_number else "unknown"]. *)
Definition serial_suffix (serial_number : option string) : string :=
  if truthy_str serial_number then to_safe_id serial_number else "unknown".

Definition build_disk_alias (model_id serial_number : option string) : string :=
  let model_part := to_snake_case (or_default model_id "unknown") in
  model_part ++ "_" ++ serial_suffix serial_number.

(* ------------------------------------------------------------------ *)
(** ** Value coercion: [to_number], [check_if_number]                    *)
(* ------------------------------------------------------------------ *)

(** The entries of [VALUE_TYPES]. *)
Inductive value_type := TFloat | TInt | TStr.

Definition DEFAULT_TYPE_NAME : string := "str".

Definition VALUE_TYPES (name : string) : option value_type :=
  if String.eqb name "float" then Some TFloat
  else if String.eqb name "int" then Some TInt
  else if String.eqb name "str" then Some TStr
  else None.

Definition to_number (value : string) : string :=
  match Text.findall Text.is_digit value with
  | first :: _ => first
  | [] => "0"
  end.

Definition check_if_number (value : string) (vt : value_type) : string :=
  match vt with
  | TInt | TFloat => to_number value
  | TStr => value
  end.

(** [int(s)] on a string of decimal digits. *)
Definition digit_value (c : ascii) : Z := Z.of_nat (nat_of_ascii c - 48).

Fixpoint int_of_digits_from (acc : Z) (s : string) : Z :=
  match s with
  | EmptyString => acc
  | String c r => int_of_digits_from (10 * acc + digit_value c) r
  end.

Definition int_of_digits (s : string) : Z := int_of_digits_from 0 s.

(* ------------------------------------------------------------------ *)
(** ** Python values, dictionaries and exceptions                        *)
(* ------------------------------------------------------------------ *)

(** The values [xmltodict.parse], [yaml.safe_load] and [json.dumps] deal
    in: [None], booleans, integers, strings, lists and dictionaries with
    string keys (in insertion order). *)
Inductive json :=
| JNull
| JBool (b : bool)
| JNum (n : Z)
| JStr (s : string)
| JList (items : list json)
| JObj (fields : list (string * json)).

(** What [xmltodict.parse] yields for an XML element: [None] for an empty
    element, its text, a dictionary of its children, or a list for a
    repeated child. *)
Inductive xval :=
| XNone
| XText (s : string)
| XList (items : list xval)
| XDict (fields : list (string * xval)).

(** Truth value of such a value ([v or d]). *)
Definition xtruthy (v : xval) : bool :=
  match v with
  | XNone => false
  | XText s => negb (Text.is_empty s)
  | XList items => match items with [] => false | _ => true end
  | XDict fields => match fields with [] => false | _ => true end
  end.

(** The same value as [json.dumps] sees it. *)
Fixpoint xval_json (v : xval) : json :=
  match v with
  | XNone => JNull
  | XText s => JStr s
  | XList items => JList (map xval_json items)
  | XDict fields => JObj (map (fun '(k, x) => (k, xval_json x)) fields)
  end.

(** The exception classes the script meets; all derive from
    [Exception].  [PermissionError] stands for the [OSError]s other than
    [FileNotFoundError]. *)
Inductive exn :=
| CalledProcessError
| ParseError
| FileNotFoundError
| PermissionError
| KeyError
| TypeError
| AttributeError
| IndexError
| ExpatError
| MQTTException.

Inductive result (A : Type) :=
| Ok (a : A)
| Raise (e : exn).

Arguments Ok {A} a.
Arguments Raise {A} e.

Definition bind {A B : Type} (r : result A) (k : A -> result B) : result B :=
  match r with
  | Ok a => k a
  | Raise e => Raise e
  end.

Notation "x <- r ;; k" := (bind r (fun x => k))
  (at level 61, r at next level, right associativity).

(** A Python [dict] with string keys: the items in insertion order. *)
Module Dict.
Section WithValues.
Context {V : Type}.

Definition t := list (string * V).

(** [d.get(k)] *)
Fixpoint get (k : string) (d : t) : option V :=
  match d with
  | [] => None
  | (k', v) :: r => if String.eqb k' k then Some v else get k r
  end.

(** [d[k] = v]: an existing key keeps its place. *)
Fixpoint set (k : string) (v : V) (d : t) : t :=
  match d with
  | [] => [(k, v)]
  | (k', v') :: r =>
      if String.eqb k' k then (k, v) :: r else (k', v') :: set k v r
  end.

(** [d.update(other)] *)
Definition update (d other : t) : t :=
  fold_left (fun acc kv => set (fst kv) (snd kv) acc) other d.

(** [{k: v for k, v in items}] *)
Definition of_items (items : list (string * V)) : t := update [] items.

Definition keys (d : t) : list string := map fst d.

Definition mem (k : string) (d : t) : bool :=
  match get k d with Some _ => true | None => false end.

End WithValues.
Arguments t : clear implicits.
End Dict.

(** [str(v)], as an f-string renders a hashable value. *)
Definition py_str (v : json) : string :=
  match v with
  | JNull => "None"
  | JBool true => "True"
  | JBool false => "False"
  | JNum n => NilZero.string_of_int (Z.to_int n)
  | JStr s => s
  | JList _ | JObj _ => ""
  end.

Definition hashable (v : json) : bool :=
  match v with
  | JList _ | JObj _ => false
  | _ => true
  end.

(* ------------------------------------------------------------------ *)
(** ** Sensor template expansion: class [Config]                         *)
(* ------------------------------------------------------------------ *)

Record SensorConfig := {
  topic : string;
  payload : json
}.

(** What [safe_load] returns for [config.yml] (the file is not among the
    sources): per sensor kind a mapping from template name to the
    template's own mapping; a kind may have no section and a template no
    body ([None]). *)
Definition template := option (Dict.t json).
Definition raw_config := Dict.t (option (Dict.t template)).

Definition SENSOR_TYPES : list string := ["binary_sensor"; "sensor"].

(** [value_types]: the assignments [value_types[query_key] = ...] in the
    order they were made; a later assignment to a key replaces an earlier
    one. *)
Definition value_types_t := list (json * value_type).

(** [value_types.get(key)] for a string [key]. *)
Fixpoint value_types_get (key : string) (vts : value_types_t)
  : option value_type :=
  match vts with
  | [] => None
  | (k, vt) :: r =>
      match value_types_get key r with
      | Some later => Some later
      | None =>
          match k with
          | JStr s => if String.eqb s key then Some vt else None
          | _ => None
          end
      end
  end.

Record Config := {
  alias : string;
  value_types : value_types_t;
  sensors : list SensorConfig
}.

(** [sorted(raw_sensors.items())]: template names are the keys of a
    dictionary, so the order of the pairs is the order of the names. *)
Fixpoint insert_sorted {V : Type} (x : string * V) (l : list (string * V))
  : list (string * V) :=
  match l with
  | [] => [x]
  | y :: r =>
      if String.leb (fst x) (fst y) then x :: l else y :: insert_sorted x r
  end.

Definition sorted_items {V : Type} (d : Dict.t V) : list (string * V) :=
  fold_right insert_sorted [] d.

(** Two templates in the order of their names. *)
Definition name_le {V : Type} (x y : string * V) : Prop :=
  String.leb (fst x) (fst y) = true.

(** [raw_config.get(sensor_type) or {}] *)
Definition raw_sensors (raw : raw_config) (sensor_type : string)
  : Dict.t template :=
  match Dict.get sensor_type raw with
  | Some (Some section) => section
  | _ => []
  end.

(** [__pop_internal_config]: the options whose key starts with an
    underscore, under their stripped lower-case names, and what is left of
    [config]. *)
Definition pop_internal_config (config : Dict.t json)
  : Dict.t json * Dict.t json :=
  (Dict.of_items
     (map (fun kv => (Text.lower (Text.lstrip "_" (fst kv)), snd kv))
          (filter (fun kv => Text.startswith "_" (fst kv)) config)),
   filter (fun kv => negb (Text.startswith "_" (fst kv))) config).

(** [ceil(1.5 * update_interval)], exact while the product is a float
    without rounding (below 2^52). *)
Definition expire_after (update_interval : Z) : Z :=
  (3 * update_interval + 1) / 2.

Section Expansion.

Variables (serial_no alias_ : string) (model firmware : json).
Variables (mqtt_state_topic availability_topic : string).
Variable update_interval : Z.

Definition get_device_descriptor (sensor_type name : string) (query_key : json)
           (config : Dict.t json) : SensorConfig :=
  {| topic := "homeassistant/" ++ sensor_type ++ "/hdsentinel_" ++ alias_
              ++ "/" ++ py_str query_key ++ "/config";
     payload :=
       JObj (Dict.update
         [ ("device",
            JObj [ ("identifiers", JList [JStr ("hdsentinel_" ++ serial_no)]);
                   ("manufacturer", JStr "hdsentinel");
                   ("name", JStr alias_);
                   ("model", model);
                   ("sw_version", firmware) ]);
           ("expire_after", JNum (expire_after update_interval));
           ("unique_id",
            JStr ("hdsentinel_" ++ serial_no ++ "_" ++ py_str query_key));
           ("name", JStr (alias_ ++ "_" ++ name));
           ("availability_topic", JStr availability_topic);
           ("state_topic", JStr mqtt_state_topic);
           ("json_attributes_topic", JStr mqtt_state_topic);
           ("value_template",
            JStr ("{{value_json." ++ py_str query_key ++ "}}")) ]
         config) |}.

(** The descriptor of one template, as the loop body builds it. *)
Definition descriptor_of (sensor_type : string) (item : string * template)
  : SensorConfig :=
  let config := match snd item with Some c => c | None => [] end in
  let query_key :=
    match Dict.get "key" (fst (pop_internal_config config)) with
    | Some k => k
    | None => JStr (fst item)
    end in
  get_device_descriptor sensor_type (fst item) query_key
    (snd (pop_internal_config config)).

(** The templates in the order of expansion: kind by kind, and by name
    within a kind. *)
Definition expansion_order (raw : raw_config) (kinds : list string)
  : list (string * (string * template)) :=
  flat_map (fun kind => map (pair kind) (sorted_items (raw_sensors raw kind)))
           kinds.

(** [VALUE_TYPES[internal_config.get("type", DEFAULT_TYPE_NAME)]] *)
Definition resolve_type (internal_config : Dict.t json) : result value_type :=
  match Dict.get "type" internal_config with
  | None =>
      match VALUE_TYPES DEFAULT_TYPE_NAME with
      | Some vt => Ok vt
      | None => Raise KeyError
      end
  | Some (JStr s) =>
      match VALUE_TYPES s with
      | Some vt => Ok vt
      | None => Raise KeyError
      end
  | Some v => if hashable v then Raise KeyError else Raise TypeError
  end.

(** The body of the loop over the sorted templates of one kind. *)
Definition expand_template (sensor_type : string)
           (acc : value_types_t * list SensorConfig)
           (item : string * template)
  : result (value_types_t * list SensorConfig) :=
  let name := fst item in
  let config := match snd item with Some c => c | None => [] end in
  let (internal_config, config) := pop_internal_config config in
  let query_key :=
    match Dict.get "key" internal_config with
    | Some k => k
    | None => JStr name
    end in
  vt <- resolve_type internal_config ;;
  if hashable query_key then
    Ok ((fst acc ++ [(query_key, vt)])%list,
        (snd acc ++ [get_device_descriptor sensor_type name query_key config])%list)
  else Raise TypeError.

Fixpoint expand_templates (sensor_type : string)
         (items : list (string * template))
         (acc : value_types_t * list SensorConfig)
  : result (value_types_t * list SensorConfig) :=
  match items with
  | [] => Ok acc
  | item :: rest =>
      acc' <- expand_template sensor_type acc item ;;
      expand_templates sensor_type rest acc'
  end.

Fixpoint expand_kinds (raw : raw_config) (kinds : list string)
         (acc : value_types_t * list SensorConfig)
  : result (value_types_t * list SensorConfig) :=
  match kinds with
  | [] => Ok acc
  | sensor_type :: rest =>
      acc' <- expand_templates sensor_type
                (sorted_items (raw_sensors raw sensor_type)) acc ;;
      expand_kinds raw rest acc'
  end.

(** [Config.__init__]; [config_yml] is the outcome of opening and loading
    [config.yml]. *)
Definition Config_init (config_yml : result raw_config) : result Config :=
  raw <- config_yml ;;
  acc <- expand_kinds raw SENSOR_TYPES ([], []) ;;
  Ok {| alias := alias_; value_types := fst acc; sensors := snd acc |}.

End Expansion.

(* ------------------------------------------------------------------ *)
(** ** Snapshot source: [get_disks]                                      *)
(* ------------------------------------------------------------------ *)

(** One poll: the attributes of every disk, keyed by serial number. *)
Definition snapshot := Dict.t (Dict.t xval).

(** What the outside world answers during one call of [get_disks]. *)
Record environment := {
  (** [HDSENTINEL_XML_PATH] is set *)
  xml_path_set : bool;
  (** [subprocess.run([... hdsentinel ...], check=True)] *)
  run_hdsentinel : result unit;
  (** [ET.parse] and [findall]; for each [Hard_Disk_Summary] element, what
      [xmltodict.parse] holds under ["Hard_Disk_Summary"], or the
      exception it raises *)
  parse_xml : result (list (result xval))
}.

(** The body of the loop over the disk summaries, with its own
    [try ... except Exception: continue]. *)
Definition add_summary (hdsentinel_disk : snapshot) (summary : result xval)
  : snapshot :=
  match summary with
  | Ok (XDict fields) =>
      match Dict.get "Hard_Disk_Serial_Number" fields with
      | Some (XText serial_number) =>
          if Text.is_empty serial_number then hdsentinel_disk
          else Dict.set serial_number fields hdsentinel_disk
      | _ => hdsentinel_disk
      end
  | _ => hdsentinel_disk
  end.

Definition parse_disks (env : environment) : result snapshot :=
  match parse_xml env with
  | Ok summaries => Ok (fold_left add_summary summaries [])
  | Raise ParseError | Raise FileNotFoundError => Ok []
  | Raise e => Raise e
  end.

Definition get_disks (env : environment) : result snapshot :=
  if xml_path_set env then parse_disks env
  else
    match run_hdsentinel env with
    | Ok _ => parse_disks env
    | Raise CalledProcessError => Ok []
    | Raise e => Raise e
    end.

(** A disk of a snapshot is kept under its own, non-empty, serial number. *)
Definition keyed_by_serial (disk : string * Dict.t xval) : Prop :=
  fst disk <> ""
  /\ Dict.get "Hard_Disk_Serial_Number" (snd disk) = Some (XText (fst disk)).

(** A summary without serial number (no such child, an empty one) leaves
    the mapping as it is. *)
Definition lacks_serial (fields : Dict.t xval) : Prop :=
  Dict.get "Hard_Disk_Serial_Number" fields = None
  \/ Dict.get "Hard_Disk_Serial_Number" fields = Some XNone
  \/ Dict.get "Hard_Disk_Serial_Number" fields = Some (XText "").

(* ------------------------------------------------------------------ *)
(** ** MQTT clients and the transport                                    *)
(* ------------------------------------------------------------------ *)

(** A payload: a plain string, or [Json doc] for
    [json.dumps(doc, sort_keys=True)]. *)
Inductive body :=
| Text (s : string)
| Json (doc : json).

Record message := {
  msg_topic : string;
  msg_payload : body;
  msg_retain : bool
}.

(** A call of [paho.mqtt.publish]. *)
Inductive call :=
| Single (m : message)
| Multiple (ms : list message).

(** One call, the key under which the calling client is kept in
    [mqtt_clients], and whether the broker took it ([false]: the call
    raised). *)
Record attempt := {
  client_key : string;
  request : call;
  delivered : bool
}.

Record HaCapableMqttClient := {
  base_topic : string;
  status_topic : string;
  published_status : option string
}.

(** [get_abs_topic]: the base topic and the relative parts, joined. *)
Definition abs_topic (base : string) (relative_topic : list string) : string :=
  Text.join "/" (base :: relative_topic).

Definition get_abs_topic (c : HaCapableMqttClient) (relative_topic : list string)
  : string :=
  abs_topic (base_topic c) relative_topic.

(** [HaCapableMqttClient(base_topic, ...)] *)
Definition new_client (base : string) : HaCapableMqttClient :=
  {| base_topic := base;
     status_topic := abs_topic base ["availability"];
     published_status := None |}.

Definition set_published_status (c : HaCapableMqttClient) (status : string)
  : HaCapableMqttClient :=
  {| base_topic := base_topic c;
     status_topic := status_topic c;
     published_status := Some status |}.

Definition status_eqb (status : string) (published : option string) : bool :=
  match published with
  | Some p => String.eqb status p
  | None => false
  end.

(** The process: the two dictionaries of [main] and every call made to the
    transport so far. *)
Record World := {
  mqtt_clients : Dict.t HaCapableMqttClient;
  configs : Dict.t Config;
  wire : list attempt
}.

Definition empty_world : World :=
  {| mqtt_clients := []; configs := []; wire := [] |}.

Section PublishLoop.

(** Whether the n-th call to the transport succeeds. *)
Variable net : nat -> bool.
(** [MQTT_TOPIC], the outcome of loading [config.yml], [HDSENTINEL_INTERVAL]. *)
Variable mqtt_topic : string.
Variable config_yml : result raw_config.
Variable update_interval : Z.

(** [publish.single] / [publish.multiple] inside
    [try ... except Exception]: the call is made, a failure is logged and
    nothing is raised. *)
Definition transport (who : string) (c : call) (w : list attempt)
  : list attempt :=
  (w ++ [ {| client_key := who; request := c; delivered := net (length w) |} ])%list.

Definition publish_single (who topic : string) (payload : body) (retain : bool)
           (w : list attempt) : list attempt :=
  transport who
    (Single {| msg_topic := topic; msg_payload := payload; msg_retain := retain |})
    w.

Definition publish_multiple (who : string) (payloads : list message)
           (w : list attempt) : list attempt :=
  transport who (Multiple payloads) w.

(** [__publish_status]: [publish_single] never raises, so the assignment
    that follows it is always reached. *)
Definition publish_status (who status : string)
           (cw : HaCapableMqttClient * list attempt)
  : HaCapableMqttClient * list attempt :=
  let (c, w) := cw in
  if status_eqb status (published_status c) then (c, w)
  else (set_published_status c status,
        publish_single who (status_topic c) (Text status) true w).

Definition publish_online_status (who : string) := publish_status who "online".
Definition publish_offline_status (who : string) := publish_status who "offline".

(** [{key.lower(): value for key, value in values.items()}] *)
Definition status_of (values : Dict.t xval) : Dict.t json :=
  Dict.of_items (map (fun kv => (Text.lower (fst kv), xval_json (snd kv))) values).

(** [main_loop]: the state of one disk, then its availability. *)
Definition main_loop (who : string) (mqtt_client : HaCapableMqttClient)
           (disk_state_topic : string) (config : Config) (values : Dict.t xval)
           (w : list attempt) : HaCapableMqttClient * list attempt :=
  let status := status_of values in
  publish_online_status who
    (mqtt_client, publish_single who disk_state_topic (Json (JObj status)) false w).

(** [values.get(key, default)] *)
Definition get_or (key : string) (default : xval) (values : Dict.t xval) : xval :=
  match Dict.get key values with
  | Some v => v
  | None => default
  end.

(** The model name as [build_disk_alias] can take it: a value that is
    neither [None] nor a string has no [replace] method. *)
Definition model_argument (v : xval) : result (option string) :=
  match v with
  | XNone => Ok None
  | XText s => Ok (Some s)
  | other => if xtruthy other then Raise AttributeError else Ok None
  end.

(** Bootstrapping, one disk: the body of the first loop of [main] with its
    [try ... except Exception: continue]. *)
Definition setup_disk (w : World) (disk : string * Dict.t xval) : World :=
  let (disk_serial_number, values) := disk in
  match model_argument
          (get_or "Hard_Disk_Model_ID"
             (XText ("unknown_" ++ disk_serial_number)) values) with
  | Raise _ => w
  | Ok model_id =>
      let alias := build_disk_alias model_id (Some disk_serial_number) in
      let mqtt_client := new_client (mqtt_topic ++ "/" ++ alias) in
      let clients := Dict.set disk_serial_number mqtt_client (mqtt_clients w) in
      let disk_state_topic := get_abs_topic mqtt_client ["hdsentinel"] in
      match Config_init disk_serial_number alias
              (xval_json (get_or "Hard_Disk_Model_ID" (XText "Unknown") values))
              (xval_json (get_or "Firmware_Revision" (XText "Unknown") values))
              disk_state_topic (status_topic mqtt_client)
              update_interval config_yml with
      | Raise _ =>
          {| mqtt_clients := clients; configs := configs w; wire := wire w |}
      | Ok config =>
          let discovery_msgs :=
            map (fun sensor =>
                   {| msg_topic := topic sensor;
                      msg_payload := Json (payload sensor);
                      msg_retain := true |})
                (sensors config) in
          {| mqtt_clients := clients;
             configs := Dict.set disk_serial_number config (configs w);
             wire := publish_multiple disk_serial_number discovery_msgs (wire w) |}
      end
  end.

Definition bootstrap (disks : snapshot) : World :=
  fold_left setup_disk disks empty_world.

(** Steady state, one disk of the fresh snapshot: the body of the inner
    loop of [main]. *)
Definition process_disk (w : World) (disk : string * Dict.t xval) : World :=
  let (disk_serial_number, values) := disk in
  match Dict.get disk_serial_number (configs w) with
  | None => w
  | Some config =>
      let (mqtt_client, clients) :=
        match Dict.get disk_serial_number (mqtt_clients w) with
        | Some c => (c, mqtt_clients w)
        | None =>
            let c := new_client (mqtt_topic ++ "/" ++ alias config) in
            (c, Dict.set disk_serial_number c (mqtt_clients w))
        end in
      let disk_state_topic := get_abs_topic mqtt_client ["hdsentinel"] in
      let (mqtt_client', w') :=
        main_loop disk_serial_number mqtt_client disk_state_topic config values
                  (wire w) in
      {| mqtt_clients := Dict.set disk_serial_number mqtt_client' clients;
         configs := configs w;
         wire := w' |}
  end.

(** One Steady cycle on the snapshot [get_disks] returned; a call of
    [get_disks] that raises is logged and leaves the world as it is, like
    an empty snapshot. *)
Definition steady_cycle (w : World) (disks : snapshot) : World :=
  fold_left process_disk disks w.

Definition steady_cycles (w : World) (polls : list snapshot) : World :=
  fold_left steady_cycle polls w.

(** Draining, one client: the body of the loop of the [finally] block. *)
Definition drain_client (w : World) (serial : string) : World :=
  match Dict.get serial (mqtt_clients w) with
  | None => w
  | Some client =>
      let (client', w') := publish_offline_status serial (client, wire w) in
      {| mqtt_clients := Dict.set serial client' (mqtt_clients w);
         configs := configs w;
         wire := w' |}
  end.

Definition drain (w : World) : World :=
  fold_left drain_client (Dict.keys (mqtt_clients w)) w.

(** [main] from the first snapshot to the exit code: no disk at start-up
    exits with 1; otherwise the disks are set up, the loop polls ([poll],
    then [polls]: it polls before it first sleeps) until a signal arrives
    during a sleep, and the clients are drained. *)
Definition main (first poll : snapshot) (polls : list snapshot) : Z * World :=
  match first with
  | [] => (1%Z, empty_world)
  | _ => (0%Z, drain (steady_cycles (bootstrap first) (poll :: polls)))
  end.

End PublishLoop.

(** The attempts of one client to publish an availability. *)
Definition is_status (who status : string) (a : attempt) : bool :=
  String.eqb (client_key a) who &&
  match request a with
  | Single m =>
      match msg_payload m with
      | Text s => String.eqb s status
      | Json _ => false
      end
  | Multiple _ => false
  end.

Definition count_status (who status : string) (w : list attempt) : nat :=
  length (filter (is_status who status) w).

(** What was sent after the first [n] attempts. *)
Definition since (n : nat) (w : list attempt) : list attempt := skipn n w.

(** The last availability recorded by the client kept under [serial]. *)
Definition status_in (w : World) (serial : string) : option string :=
  match Dict.get serial (mqtt_clients w) with
  | Some c => published_status c
  | None => None
  end.

Definition by_client (who : string) (a : attempt) : bool :=
  String.eqb (client_key a) who.

(* ------------------------------------------------------------------ *)
(** ** The earlier script, [app/hdsentinel-parser.py]                    *)
(* ------------------------------------------------------------------ *)

Module Legacy.

(** [re.findall(r"\d+", value)[0]] *)
Definition to_number (value : string) : result string :=
  match Text.findall Text.is_digit value with
  | first :: _ => Ok first
  | [] => Raise IndexError
  end.

Definition check_if_number (value : string) (vt : value_type) : result string :=
  match vt with
  | TInt | TFloat => to_number value
  | TStr => Ok value
  end.

(** A value as [main_loop] puts it into the state document: an [int], the
    [float] of a string of digits, or a string. *)
Inductive coerced :=
| CInt (n : Z)
| CFloat (digits : string)
| CStr (s : string).

(** [value_type(check_if_number(value, value_type))] with
    [value_type = config.value_types.get(key, str)]. *)
Definition coerce (vts : value_types_t) (key value : string) : result coerced :=
  let vt := match value_types_get key vts with
            | Some vt => vt
            | None => TStr
            end in
  v <- check_if_number value vt ;;
  Ok (match vt with
      | TInt => CInt (int_of_digits v)
      | TFloat => CFloat v
      | TStr => CStr v
      end).

End Legacy.

(* ------------------------------------------------------------------ *)
(** ** Shapes of identifiers                                             *)
(* ------------------------------------------------------------------ *)

(** A character of a normalized identifier: lower-case letter, digit or
    underscore. *)
Definition safe_char (c : ascii) : bool :=
  Text.is_lower c || Text.is_digit c || Ascii.eqb c "_".

(** A character that is no upper-case letter, no separator of [split] and
    no hyphen. *)
Definition plain_char (c : ascii) : bool :=
  negb (Text.is_upper c) && negb (Text.is_space c) && negb (Ascii.eqb c "-").

(** The last character of a string satisfies a predicate. *)
Fixpoint last_is (p : ascii -> bool) (s : string) : bool :=
  match s with
  | EmptyString => false
  | String c EmptyString => p c
  | String _ r => last_is p r
  end.

(** No two neighbours of a string are both the character [a]. *)
Fixpoint no_double (a : ascii) (s : string) : bool :=
  match s with
  | EmptyString => true
  | String c r =>
      negb (Ascii.eqb c a && Text.next_is (fun d => Ascii.eqb d a) r)
      && no_double a r
  end.

(** The shape [to_safe_id] gives to every value. *)
Definition safe_id_shape (s : string) : Prop :=
  Text.forallb safe_char s = true
  /\ Text.next_is (fun d => Ascii.eqb d "_") s = false
  /\ last_is (fun d => Ascii.eqb d "_") s = false
  /\ no_double "_" s = true.

(** The fields of a discovery payload. *)
Definition fields_of (sensor : SensorConfig) : Dict.t json :=
  match payload sensor with
  | JObj fields => fields
  | _ => []
  end.

(** The body of a template: [{}] for a template without body. *)
Definition template_body (t : template) : Dict.t json :=
  match t with
  | Some config => config
  | None => []
  end.

(** A report summary that names the serial number [serial]. *)
Definition names_serial (serial : string) (summary : result xval) : Prop :=
  match summary with
  | Ok (XDict fields) =>
      Dict.get "Hard_Disk_Serial_Number" fields = Some (XText serial)
  | _ => False
  end.

(* ------------------------------------------------------------------ *)
(** ** Messages of the publish loop                                      *)
(* ------------------------------------------------------------------ *)

(** The state message of a disk, as [main_loop] sends it through the
    client [c]. *)
Definition state_message (c : HaCapableMqttClient) (values : Dict.t xval)
  : message :=
  {| msg_topic := get_abs_topic c ["hdsentinel"];
     msg_payload := Json (JObj (status_of values));
     msg_retain := false |}.

(** The availability message of a client. *)
Definition status_message (c : HaCapableMqttClient) (status : string)
  : message :=
  {| msg_topic := status_topic c;
     msg_payload := Text status;
     msg_retain := true |}.

(** The discovery messages of a configuration. *)
Definition discovery_msgs (config : Config) : list message :=
  map (fun sensor =>
         {| msg_topic := topic sensor;
            msg_payload := Json (payload sensor);
            msg_retain := true |})
      (sensors config).

(** The retain flag that goes with each kind of message: an availability
    ("online" or "offline") is retained, a state document is not, and a
    batch holds retained documents only. *)
Definition well_flagged (a : attempt) : bool :=
  match request a with
  | Single m =>
      match msg_payload m with
      | Text s =>
          msg_retain m && (String.eqb s "online" || String.eqb s "offline")
      | Json _ => negb (msg_retain m)
      end
  | Multiple ms =>
      forallb (fun m =>
                 msg_retain m
                 && match msg_payload m with Json _ => true | Text _ => false end)
              ms
  end.

(** An attempt to publish "offline". *)
Definition is_offline_attempt (a : attempt) : bool :=
  match request a with
  | Single m =>
      match msg_payload m with
      | Text s => String.eqb s "offline"
      | Json _ => false
      end
  | Multiple _ => false
  end.

(** Every configured disk has a client. *)
Definition clients_cover_configs (w : World) : Prop :=
  incl (Dict.keys (configs w)) (Dict.keys (mqtt_clients w)).

(** The sleep between two polls:
    [for _ in range(update_interval * 2): time.sleep(0.5)], leaving with
    [sys.exit(0)] at the first check that finds [exiting_main_loop] set.
    [exiting i] is the flag as the check after the sleep number [i] reads
    it; the result is the number of that check, or [None] when the loop
    runs to its end and [main] polls again. *)
Fixpoint first_check (n i : nat) (exiting : nat -> bool) : option nat :=
  match n with
  | O => None
  | S n' => if exiting i then Some i else first_check n' (S i) exiting
  end.

Definition interruptible_sleep (update_interval : Z) (exiting : nat -> bool)
  : option nat :=
  first_check (Z.to_nat (update_interval * 2)) 0 exiting.

(** A call of [publish_multiple]. *)
Definition is_batch (a : attempt) : bool :=
  match request a with
  | Multiple _ => true
  | Single _ => false
  end.

(** The topics of a disk with alias [alias_] under the prefix [mqtt_topic]. *)
Definition state_topic_of (mqtt_topic alias_ : string) : string :=
  abs_topic (mqtt_topic ++ "/" ++ alias_) ["hdsentinel"].

Definition availability_topic_of (mqtt_topic alias_ : string) : string :=
  abs_topic (mqtt_topic ++ "/" ++ alias_) ["availability"].

(** The fields of a discovery payload that name a topic. *)
Definition topic_fields : list string :=
  ["availability_topic"; "state_topic"; "json_attributes_topic"].

(** A descriptor that announces the state topic [st] and the availability
    topic [av]: the fields of its payload, as they are published. *)
Definition announces (sensor : SensorConfig) (st av : string) : Prop :=
  Dict.get "state_topic" (fields_of sensor) = Some (JStr st)
  /\ Dict.get "json_attributes_topic" (fields_of sensor) = Some (JStr st)
  /\ Dict.get "availability_topic" (fields_of sensor) = Some (JStr av).

(** A template file none of whose templates sets a topic field itself
    (an option of that name would replace the generated field, see
    [payload.update(config)]). *)
Definition keeps_topics (raw : raw_config) : Prop :=
  forall kind name t field,
    In kind SENSOR_TYPES ->
    In (name, t) (raw_sensors raw kind) ->
    In field topic_fields ->
    Dict.get field (template_body t) = None.

(** A configuration and a client that belong together: the client
    publishes on the topics of the alias of the configuration, and every
    descriptor of the configuration announces the two topics the client
    publishes on. *)
Definition topics_agree (mqtt_topic : string) (config : Config)
           (c : HaCapableMqttClient) : Prop :=
  get_abs_topic c ["hdsentinel"] = state_topic_of mqtt_topic (alias config)
  /\ status_topic c = availability_topic_of mqtt_topic (alias config)
  /\ Forall (fun sensor =>
               announces sensor (get_abs_topic c ["hdsentinel"])
                         (status_topic c))
            (sensors config).

(** Every configured disk of a world has a client that belongs to its
    configuration. *)
Definition topics_match (mqtt_topic : string) (w : World) : Prop :=
  forall serial config,
    Dict.get serial (configs w) = Some config ->
    exists c,
      Dict.get serial (mqtt_clients w) = Some c
      /\ topics_agree mqtt_topic config c.

(* ------------------------------------------------------------------ *)
(** ** Sample data                                                       *)
(* ------------------------------------------------------------------ *)

(** A poll of two disks, one of them without serial number. *)
Definition two_summaries : environment :=
  {| xml_path_set := true;
     run_hdsentinel := Ok tt;
     parse_xml :=
       Ok [ Ok (XDict [ ("Hard_Disk_Model_ID", XText "SAMSUNG HD103UJ");
                        ("Hard_Disk_Serial_Number", XText "S13PJ90S113060") ]);
            Ok (XDict [ ("Hard_Disk_Model_ID", XText "SAMSUNG HD103UJ");
                        ("Hard_Disk_Serial_Number", XNone) ]) ] |}.

(** The templates of the test suite, and the same templates written in
    the other order. *)
Definition health_template : string * template :=
  ("health",
   Some [ ("device_class", JStr "battery");
          ("unit_of_measurement", JStr "%");
          ("_key", JStr "hard_disk_health");
          ("_type", JStr "int") ]).

Definition temperature_template : string * template :=
  ("temperature",
   Some [ ("device_class", JStr "temperature");
          ("_key", JStr "temperature");
          ("_type", JStr "int") ]).

Definition templates_a : raw_config :=
  [ ("sensor", Some [ health_template; temperature_template ]) ].

Definition templates_b : raw_config :=
  [ ("sensor", Some [ temperature_template; health_template ]) ].

Definition sample_config : result Config :=
  Config_init "S4EWNF0M123456" "samsung_ssd_970_evo_plus_s4ewnf0m123456"
    (JStr "Samsung SSD 970 EVO Plus 1TB") (JStr "2B2QEXM7")
    "hdsentinel/samsung_ssd_970_evo_plus_s4ewnf0m123456/hdsentinel"
    "hdsentinel/samsung_ssd_970_evo_plus_s4ewnf0m123456/availability"
    600 (Ok templates_a).

(** The configuration [Config] builds from the sample templates. *)
Definition health_config : Config :=
  match sample_config with
  | Ok config => config
  | Raise _ => {| alias := ""; value_types := []; sensors := [] |}
  end.

(** Two disks of the same model. *)
Definition disk_a : string * Dict.t xval :=
  ("S13PJ90S113060",
   [ ("Hard_Disk_Model_ID", XText "SAMSUNG HD103UJ");
     ("Hard_Disk_Serial_Number", XText "S13PJ90S113060");
     ("Firmware_Revision", XText "1AA01113");
     ("Hard_Disk_Health", XText "100 %") ]).

Definition disk_b : string * Dict.t xval :=
  ("S13PJ90S113054",
   [ ("Hard_Disk_Model_ID", XText "SAMSUNG HD103UJ");
     ("Hard_Disk_Serial_Number", XText "S13PJ90S113054");
     ("Firmware_Revision", XText "1AA01113");
     ("Hard_Disk_Health", XText "98 %") ]).

(** A broker that takes every message, and one that takes none. *)
Definition always_up : nat -> bool := fun _ => true.
Definition always_down : nat -> bool := fun _ => false.

(** The process after Bootstrapping on the two disks. *)
Definition booted (net : nat -> bool) : World :=
  bootstrap net "hdsentinel" (Ok templates_a) 600 [disk_a; disk_b].

(** Templates with a misspelt type. *)
Definition templates_bad : raw_config :=
  [ ("sensor",
     Some [ health_template;
            ("temperature", Some [ ("_type", JStr "integer") ]) ]) ].

(** A template that names a state topic of its own. *)
Definition templates_elsewhere : raw_config :=
  [ ("sensor",
     Some [ ("health", Some [ ("state_topic", JStr "elsewhere/state") ]) ]) ].

(* ------------------------------------------------------------------ *)
(** ** The functions on the tests' examples                              *)
(* ------------------------------------------------------------------ *)

Example snake_samsung :
  to_snake_case "Samsung SSD 970 EVO Plus" = "samsung_ssd_970_evo_plus".
Proof. reflexivity. Qed.

Example snake_wdc :
  to_snake_case "WDC WD10EZEX-00WN4A0" = "wdc_wd10_ezex_00_wn4_a0".
Proof. reflexivity. Qed.

Example snake_camel : to_snake_case "CamelCaseTest" = "camel_case_test".
Proof. reflexivity. Qed.

Example safe_id_plain : to_safe_id (Some "S13PJ90S113060") = "s13pj90s113060".
Proof. reflexivity. Qed.

Example safe_id_dash : to_safe_id (Some "WD-WCC6Y5ABCDEF") = "wd_wcc6y5abcdef".
Proof. reflexivity. Qed.

Example safe_id_special :
  to_safe_id (Some "Serial-With_Special!Chars@123")
  = "serial_with_special_chars_123".
Proof. reflexivity. Qed.

Example safe_id_empty : to_safe_id (Some "") = "".
Proof. reflexivity. Qed.

Example alias_samsung :
  build_disk_alias (Some "SAMSUNG HD103UJ") (Some "S13PJ90S113060")
  = "samsung_hd103_uj_s13pj90s113060".
Proof. reflexivity. Qed.

Example alias_wdc :
  build_disk_alias (Some "WDC WD10EFRX-68FYTN0") (Some "WD-WCC4J5HL2R45")
  = "wdc_wd10_efrx_68_fytn0_wd_wcc4j5hl2r45".
Proof. reflexivity. Qed.

Example alias_short : build_disk_alias (Some "Test Model") (Some "SHORT")
  = "test_model_short".
Proof. reflexivity. Qed.

Example alias_no_model : build_disk_alias (Some "") (Some "S13PJ90S113060")
  = "unknown_s13pj90s113060".
Proof. reflexivity. Qed.

Example number_percent : check_if_number "100%" TInt = "100".
Proof. reflexivity. Qed.

Example number_celsius : check_if_number "38 C" TFloat = "38".
Proof. reflexivity. Qed.

Example number_none : check_if_number "No numbers here" TInt = "0".
Proof. reflexivity. Qed.

Example number_text : check_if_number "Text value" TStr = "Text value".
Proof. reflexivity. Qed.

Example number_inside : to_number "Temperature: 38 C" = "38".
Proof. reflexivity. Qed.

(* ------------------------------------------------------------------ *)
(** ** Properties of the character-level functions                       *)
(* ------------------------------------------------------------------ *)

Section RunsOfAClass.

Variable cls : ascii -> bool.

Lemma is_empty_true (s : string) : Text.is_empty s = true <-> s = "".
Proof. destruct s; simpl; split; congruence. Qed.

Lemma append_empty_r (s : string) : s ++ "" = s.
Proof. induction s as [|c s IH]; simpl; [reflexivity | now rewrite IH]. Qed.

Lemma append_assoc (a b c : string) : (a ++ b) ++ c = a ++ (b ++ c).
Proof. induction a as [|x a IH]; simpl; [reflexivity | now rewrite IH]. Qed.

Lemma forallb_append (p : ascii -> bool) (a b : string) :
  Text.forallb p (a ++ b) = Text.forallb p a && Text.forallb p b.
Proof.
  induction a as [|x a IH]; simpl; [reflexivity|].
  now rewrite IH, andb_assoc.
Qed.

(** Characters outside the class in front of a string do not start a run. *)
Lemma runs_skip (pre s : string) :
  Text.existsb cls pre = false ->
  Text.runs cls "" (pre ++ s) = Text.runs cls "" s.
Proof.
  induction pre as [|c pre IH]; simpl; intros H; [reflexivity|].
  apply orb_false_iff in H as [Hc Hpre].
  rewrite Hc. simpl. auto.
Qed.

(** Characters of the class extend the run being read. *)
Lemma runs_extend (run cur s : string) :
  Text.forallb cls run = true ->
  Text.runs cls cur (run ++ s) = Text.runs cls (cur ++ run) s.
Proof.
  revert cur.
  induction run as [|c run IH]; simpl; intros cur H.
  - now rewrite append_empty_r.
  - apply andb_true_iff in H as [Hc Hrun].
    rewrite Hc, IH by assumption.
    now rewrite append_assoc.
Qed.

(** A run ends at the end of the string or at a character outside the
    class. *)
Lemma runs_close (cur s : string) :
  cur <> "" ->
  Text.next_is cls s = false ->
  exists later, Text.runs cls cur s = cur :: later.
Proof.
  intros Hcur Hs.
  destruct s as [|c s]; simpl in *.
  - destruct cur; [congruence|]. simpl. now exists [].
  - rewrite Hs. destruct cur; [congruence|]. simpl. eauto.
Qed.

Lemma runs_none (s : string) :
  Text.existsb cls s = false -> Text.runs cls "" s = [].
Proof.
  induction s as [|c s IH]; simpl; intros H; [reflexivity|].
  apply orb_false_iff in H as [Hc Hs].
  rewrite Hc. simpl. auto.
Qed.

(** Every run found is a non-empty string of characters of the class. *)
Lemma runs_wellformed (s cur : string) :
  Text.forallb cls cur = true ->
  Forall (fun r => r <> "" /\ Text.forallb cls r = true) (Text.runs cls cur s).
Proof.
  revert cur.
  induction s as [|c s IH]; simpl; intros cur Hcur.
  - destruct cur; simpl; constructor; [split; [congruence | assumption] | constructor].
  - destruct (cls c) eqn:Hc.
    + apply IH. rewrite forallb_append, Hcur. simpl. now rewrite Hc.
    + destruct cur; simpl.
      * now apply IH.
      * constructor; [split; [congruence | assumption] | now apply IH].
Qed.

End RunsOfAClass.

Lemma to_number_first_run (pre run rest : string) :
  Text.existsb Text.is_digit pre = false ->
  run <> "" ->
  Text.forallb Text.is_digit run = true ->
  Text.next_is Text.is_digit rest = false ->
  to_number (pre ++ run ++ rest) = run.
Proof.
  intros Hpre Hne Hrun Hrest.
  unfold to_number, Text.findall.
  rewrite runs_skip by assumption.
  rewrite runs_extend by assumption. simpl.
  destruct (runs_close Text.is_digit run rest Hne Hrest) as [later ->].
  reflexivity.
Qed.

Lemma to_number_no_digit (value : string) :
  Text.existsb Text.is_digit value = false -> to_number value = "0".
Proof.
  intros H. unfold to_number, Text.findall.
  now rewrite runs_none.
Qed.

Lemma to_number_digits (value : string) :
  to_number value <> "" /\ Text.forallb Text.is_digit (to_number value) = true.
Proof.
  unfold to_number, Text.findall.
  pose proof (runs_wellformed Text.is_digit value "" eq_refl) as H.
  destruct (Text.runs Text.is_digit "" value) as [|first later].
  - split; [discriminate | reflexivity].
  - now inversion H.
Qed.

(** C6. Numeric coercion is total: under an [int] or [float] declared type
    [check_if_number] is [to_number], which returns the first maximal run
    of decimal digits of the value, the string ["0"] when the value holds
    no digit, and in every case a non-empty string of digits (so reading
    it as a number cannot fail); ["More than 1000 days"] gives 1000 and
    ["N/A"] gives 0. *)
Theorem to_number_total (value : string) :
  (check_if_number value TInt = to_number value
   /\ check_if_number value TFloat = to_number value)
  /\ (forall pre run rest,
        value = pre ++ run ++ rest ->
        Text.existsb Text.is_digit pre = false ->
        run <> "" -> Text.forallb Text.is_digit run = true ->
        Text.next_is Text.is_digit rest = false ->
        to_number value = run)
  /\ (Text.existsb Text.is_digit value = false -> to_number value = "0")
  /\ (to_number value <> ""
      /\ Text.forallb Text.is_digit (to_number value) = true)
  /\ (check_if_number "More than 1000 days" TInt = "1000"
      /\ int_of_digits (check_if_number "More than 1000 days" TInt) = 1000%Z)
  /\ (check_if_number "N/A" TInt = "0"
      /\ int_of_digits (check_if_number "N/A" TInt) = 0%Z).
Proof.
  split; [split; reflexivity|].
  split; [intros pre run rest ->; apply to_number_first_run|].
  split; [apply to_number_no_digit|].
  split; [apply to_number_digits|].
  split; split; reflexivity.
Qed.

(** The earlier script's [to_number] has no fallback: it raises on a value
    without a digit. *)
Lemma legacy_to_number_raises :
  Legacy.to_number "N/A" = Raise IndexError.
Proof. reflexivity. Qed.

(* ------------------------------------------------------------------ *)
(** ** Properties of the alias builder                                   *)
(* ------------------------------------------------------------------ *)

Lemma append_inv_head (p a b : string) : p ++ a = p ++ b -> a = b.
Proof.
  induction p as [|c p IH]; simpl; intros H; [assumption|].
  injection H. exact IH.
Qed.

Lemma build_disk_alias_eq_iff (model_id s1 s2 : option string) :
  build_disk_alias model_id s1 = build_disk_alias model_id s2
  <-> serial_suffix s1 = serial_suffix s2.
Proof.
  unfold build_disk_alias. split.
  - intros H. apply append_inv_head in H. simpl in H. now injection H.
  - now intros ->.
Qed.

(** C4. For a fixed model, two serial numbers that differ and still differ
    after normalization get different aliases. *)
Theorem build_disk_alias_injective (model_id s1 s2 : option string) :
  s1 <> s2 ->
  serial_suffix s1 <> serial_suffix s2 ->
  build_disk_alias model_id s1 <> build_disk_alias model_id s2.
Proof.
  intros _ Hsuffix Halias.
  apply Hsuffix. now apply build_disk_alias_eq_iff in Halias.
Qed.

Lemma build_disk_alias_injective_witness :
  Some "S13PJ90S113060" <> Some "S13PJ90S113054"
  /\ serial_suffix (Some "S13PJ90S113060") <> serial_suffix (Some "S13PJ90S113054")
  /\ build_disk_alias (Some "SAMSUNG HD103UJ") (Some "S13PJ90S113060")
     <> build_disk_alias (Some "SAMSUNG HD103UJ") (Some "S13PJ90S113054").
Proof.
  split; [discriminate|].
  split; [vm_compute; discriminate|].
  apply (build_disk_alias_injective (Some "SAMSUNG HD103UJ")
           (Some "S13PJ90S113060") (Some "S13PJ90S113054")).
  - discriminate.
  - vm_compute; discriminate.
Defined.

(** Serial numbers that are equal after normalization share their alias. *)
Lemma build_disk_alias_collides :
  build_disk_alias (Some "SAMSUNG HD103UJ") (Some "S13-PJ90")
  = build_disk_alias (Some "SAMSUNG HD103UJ") (Some "S13_PJ90").
Proof. reflexivity. Qed.

Lemma lower_empty (s : string) : Text.lower s = "" <-> s = "".
Proof. destruct s; simpl; split; congruence. Qed.

Lemma lstrip_shape (a : ascii) (s : string) :
  Text.lstrip a s = "" \/ Text.next_is (fun c => negb (Ascii.eqb c a)) (Text.lstrip a s) = true.
Proof.
  induction s as [|c s IH]; simpl; [now left|].
  destruct (Ascii.eqb c a) eqn:E; [assumption|].
  right. simpl. now rewrite E.
Qed.

Lemma lstrip_all (a : ascii) (s : string) :
  Text.lstrip a s = "" <-> Text.forallb (fun c => Ascii.eqb c a) s = true.
Proof.
  induction s as [|c s IH]; simpl; [tauto|].
  destruct (Ascii.eqb c a); simpl; [assumption|].
  split; discriminate.
Qed.

Lemma rstrip_all (a : ascii) (s : string) :
  Text.rstrip a s = "" <-> Text.forallb (fun c => Ascii.eqb c a) s = true.
Proof.
  induction s as [|c s IH]; simpl; [tauto|].
  destruct (Text.rstrip a s) eqn:E.
  - destruct (Ascii.eqb c a); simpl; [tauto|]. split; discriminate.
  - split; [discriminate|].
    intros H. apply andb_true_iff in H as [_ H].
    apply IH in H. discriminate.
Qed.

(** Stripping leaves nothing exactly when every character is the stripped
    one. *)
Lemma strip_all (a : ascii) (s : string) :
  Text.strip a s = "" <-> Text.forallb (fun c => Ascii.eqb c a) s = true.
Proof.
  unfold Text.strip. rewrite rstrip_all. split.
  - intros H. apply lstrip_all.
    destruct (lstrip_shape a s) as [E | E]; [assumption|].
    destruct (Text.lstrip a s) as [|c r]; [reflexivity|].
    simpl in *. apply andb_true_iff in H as [H _].
    rewrite H in E. discriminate.
  - intros H. apply lstrip_all in H. now rewrite H.
Qed.

Lemma alnum_not_underscore (c : ascii) :
  Text.is_alnum c = true -> Ascii.eqb c "_" = false.
Proof.
  intros H. destruct (Ascii.eqb_spec c "_") as [-> | _]; [|reflexivity].
  vm_compute in H. discriminate.
Qed.

Lemma sub_runs_all_underscores (in_run : bool) (s : string) :
  Text.forallb (fun c => Ascii.eqb c "_")
    (Text.sub_runs (fun c => negb (Text.is_alnum c)) "_" in_run s)
  = negb (Text.existsb Text.is_alnum s).
Proof.
  revert in_run.
  induction s as [|c s IH]; intros in_run; simpl; [reflexivity|].
  destruct (Text.is_alnum c) eqn:E; simpl.
  - now rewrite (alnum_not_underscore c E).
  - destruct in_run; simpl; apply IH.
Qed.

(** When normalization empties a serial number: exactly when it has no
    ASCII letter and no digit. *)
Lemma to_safe_id_empty_iff (value : option string) :
  to_safe_id value = ""
  <-> Text.existsb Text.is_alnum (or_default value "") = false.
Proof.
  unfold to_safe_id.
  rewrite lower_empty, strip_all, sub_runs_all_underscores.
  apply negb_true_iff.
Qed.

Lemma serial_suffix_missing :
  serial_suffix None = "unknown" /\ serial_suffix (Some "") = "unknown".
Proof. split; reflexivity. Qed.

(** The suffix is empty for the serial numbers that are not empty and hold
    no letter and no digit, and only for them. *)
Lemma serial_suffix_empty_iff (serial_number : option string) :
  serial_suffix serial_number = ""
  <-> exists s, serial_number = Some s /\ s <> ""
                /\ Text.existsb Text.is_alnum s = false.
Proof.
  unfold serial_suffix.
  destruct serial_number as [[|c s]|]; simpl.
  - split; [discriminate|].
    intros (s & E & H & _). injection E as <-. congruence.
  - rewrite to_safe_id_empty_iff. simpl. split.
    + intros H. exists (String c s). repeat split; [discriminate | assumption].
    + intros (s' & E & _ & H). injection E as <-. assumption.
  - split; [discriminate | intros (s & E & _); discriminate].
Qed.

(** C7. A serial number made only of characters that are neither letters
    nor digits is not empty, so the ["unknown"] fallback is not taken, and
    normalization leaves nothing of it: the serial suffix of the alias is
    the empty string. *)
Theorem serial_suffix_can_be_empty :
  truthy_str (Some "-") = true
  /\ to_safe_id (Some "-") = ""
  /\ serial_suffix (Some "-") = ""
  /\ build_disk_alias (Some "SAMSUNG HD103UJ") (Some "-") = "samsung_hd103_uj_".
Proof. repeat split. Qed.

(* ------------------------------------------------------------------ *)
(** ** Properties of dictionaries                                        *)
(* ------------------------------------------------------------------ *)

Section DictFacts.

Context {V : Type}.
Implicit Types (d : Dict.t V) (k : string) (v : V).

Lemma get_set_same k v d : Dict.get k (Dict.set k v d) = Some v.
Proof.
  induction d as [|[k' v'] d IH]; simpl.
  - now rewrite String.eqb_refl.
  - destruct (String.eqb k' k) eqn:E; simpl.
    + now rewrite String.eqb_refl.
    + now rewrite E.
Qed.

Lemma get_set_other k k' v d :
  k <> k' -> Dict.get k' (Dict.set k v d) = Dict.get k' d.
Proof.
  intros Hne.
  induction d as [|[k0 v0] d IH]; simpl.
  - apply String.eqb_neq in Hne. now rewrite Hne.
  - destruct (String.eqb k0 k) eqn:E; simpl.
    + apply String.eqb_eq in E. subst k0.
      apply String.eqb_neq in Hne. now rewrite Hne.
    + now rewrite IH.
Qed.

(** Assigning to a key only changes what is stored under it. *)
Lemma set_preserves (P : string * V -> Prop) k v d :
  P (k, v) -> Forall P d -> Forall P (Dict.set k v d).
Proof.
  intros Hkv Hd.
  induction Hd as [|[k' v'] d Hx Hd IH]; simpl.
  - now repeat constructor.
  - destruct (String.eqb k' k); constructor; assumption.
Qed.

Lemma keys_set k v d x :
  In x (Dict.keys (Dict.set k v d)) <-> x = k \/ In x (Dict.keys d).
Proof.
  induction d as [|[k' v'] d IH]; simpl.
  - intuition.
  - destruct (String.eqb k' k) eqn:E; simpl.
    + apply String.eqb_eq in E. subst. intuition.
    + rewrite IH. intuition.
Qed.

Lemma get_in_keys k d :
  In k (Dict.keys d) <-> exists v, Dict.get k d = Some v.
Proof.
  induction d as [|[k' v'] d IH]; simpl.
  - split; [tauto | intros [v H]; discriminate].
  - destruct (String.eqb_spec k' k) as [-> | Hne].
    + split; eauto.
    + rewrite <- IH. intuition.
Qed.

End DictFacts.

(* ------------------------------------------------------------------ *)
(** ** Properties of the snapshot source                                 *)
(* ------------------------------------------------------------------ *)

Lemma add_summary_keyed (acc : snapshot) (summary : result xval) :
  Forall keyed_by_serial acc -> Forall keyed_by_serial (add_summary acc summary).
Proof.
  intros Hacc. unfold add_summary.
  destruct summary as [[| |items|fields]|e]; try assumption.
  destruct (Dict.get "Hard_Disk_Serial_Number" fields) as [[|s| |]|] eqn:E;
    try assumption.
  destruct s as [|c s]; [assumption|].
  apply set_preserves; [|assumption].
  split; [discriminate | exact E].
Qed.

Lemma fold_add_summary_keyed (summaries : list (result xval)) (acc : snapshot) :
  Forall keyed_by_serial acc ->
  Forall keyed_by_serial (fold_left add_summary summaries acc).
Proof.
  revert acc.
  induction summaries as [|s summaries IH]; simpl; intros acc Hacc.
  - assumption.
  - apply IH. now apply add_summary_keyed.
Qed.

Lemma parse_disks_keyed (env : environment) (disks : snapshot) :
  parse_disks env = Ok disks -> Forall keyed_by_serial disks.
Proof.
  unfold parse_disks.
  destruct (parse_xml env) as [summaries|e].
  - intros H. injection H as <-. apply fold_add_summary_keyed. constructor.
  - destruct e; intros H; try discriminate; injection H as <-; constructor.
Qed.

(** C10, as amended. Every disk of the mapping [get_disks] returns is kept
    under its own non-empty serial number; a summary without serial number
    is skipped; [CalledProcessError] from the subprocess, and [ParseError]
    or [FileNotFoundError] from parsing, give the empty mapping. *)
Theorem get_disks_keys_and_failures (env : environment) :
  (forall disks, get_disks env = Ok disks -> Forall keyed_by_serial disks)
  /\ (forall acc fields,
        lacks_serial fields -> add_summary acc (Ok (XDict fields)) = acc)
  /\ (xml_path_set env = false ->
      run_hdsentinel env = Raise CalledProcessError ->
      get_disks env = Ok [])
  /\ (xml_path_set env = true \/ run_hdsentinel env = Ok tt ->
      parse_xml env = Raise ParseError
      \/ parse_xml env = Raise FileNotFoundError ->
      get_disks env = Ok []).
Proof.
  repeat split.
  - intros disks. unfold get_disks.
    destruct (xml_path_set env); [apply parse_disks_keyed|].
    destruct (run_hdsentinel env) as [u|e]; [apply parse_disks_keyed|].
    destruct e; intros H; try discriminate.
    injection H as <-. constructor.
  - intros acc fields [H | [H | H]]; unfold add_summary; now rewrite H.
  - intros Hpath Hrun. unfold get_disks. now rewrite Hpath, Hrun.
  - intros Hrun Hparse. unfold get_disks, parse_disks.
    destruct Hrun as [-> | ->];
      [|destruct (xml_path_set env)];
      destruct Hparse as [-> | ->]; reflexivity.
Qed.

Lemma get_disks_keys_and_failures_witness :
  Dict.keys
    (match get_disks two_summaries with Ok disks => disks | Raise _ => [] end)
  = ["S13PJ90S113060"]
  /\ Forall keyed_by_serial
       [ ("S13PJ90S113060",
          [ ("Hard_Disk_Model_ID", XText "SAMSUNG HD103UJ");
            ("Hard_Disk_Serial_Number", XText "S13PJ90S113060") ]) ]
  /\ get_disks {| xml_path_set := false;
                  run_hdsentinel := Raise CalledProcessError;
                  parse_xml := Ok [] |} = Ok []
  /\ get_disks {| xml_path_set := true;
                  run_hdsentinel := Ok tt;
                  parse_xml := Raise ParseError |} = Ok [].
Proof.
  split; [reflexivity|].
  split; [apply (proj1 (get_disks_keys_and_failures two_summaries)); reflexivity|].
  split.
  - apply (proj1 (proj2 (proj2 (get_disks_keys_and_failures
             {| xml_path_set := false;
                run_hdsentinel := Raise CalledProcessError;
                parse_xml := Ok [] |})))); reflexivity.
  - apply (proj2 (proj2 (proj2 (get_disks_keys_and_failures
             {| xml_path_set := true;
                run_hdsentinel := Ok tt;
                parse_xml := Raise ParseError |}))));
      left; reflexivity.
Defined.

(** C10, as stated, fails: when the hdsentinel binary cannot be started
    [subprocess.run] raises [FileNotFoundError], which the handler for
    [CalledProcessError] does not catch, and [get_disks] raises. *)
Lemma get_disks_can_raise :
  get_disks {| xml_path_set := false;
               run_hdsentinel := Raise FileNotFoundError;
               parse_xml := Ok [] |}
  = Raise FileNotFoundError.
Proof. reflexivity. Qed.

(* ------------------------------------------------------------------ *)
(** ** Properties of the order on template names                         *)
(* ------------------------------------------------------------------ *)

Lemma ascii_compare_refl (a : ascii) : Ascii.compare a a = Eq.
Proof. apply N.compare_refl. Qed.

Lemma ascii_compare_lt_trans (a b c : ascii) :
  Ascii.compare a b = Lt -> Ascii.compare b c = Lt -> Ascii.compare a c = Lt.
Proof.
  unfold Ascii.compare. rewrite !N.compare_lt_iff. apply N.lt_trans.
Qed.

Lemma string_compare_refl (s : string) : String.compare s s = Eq.
Proof.
  induction s as [|c s IH]; simpl; [reflexivity|].
  now rewrite ascii_compare_refl.
Qed.

Lemma string_compare_lt_trans (a b c : string) :
  String.compare a b = Lt -> String.compare b c = Lt -> String.compare a c = Lt.
Proof.
  revert b c.
  induction a as [|x a IH]; intros [|y b] [|z c]; simpl; try congruence.
  destruct (Ascii.compare x y) eqn:Exy; try discriminate;
    destruct (Ascii.compare y z) eqn:Eyz; try discriminate.
  - apply Ascii.compare_eq_iff in Exy, Eyz. subst.
    rewrite ascii_compare_refl. apply IH.
  - apply Ascii.compare_eq_iff in Exy. subst. now rewrite Eyz.
  - apply Ascii.compare_eq_iff in Eyz. subst. now rewrite Exy.
  - now rewrite (ascii_compare_lt_trans x y z).
Qed.

Lemma string_leb_cases (a b : string) :
  String.leb a b = true <-> a = b \/ String.compare a b = Lt.
Proof.
  unfold String.leb.
  destruct (String.compare a b) eqn:E; split; try intuition congruence.
  - intros _. left. now apply String.compare_eq_iff.
  - intros [-> | H]; [|discriminate].
    rewrite string_compare_refl in E. discriminate.
Qed.

Lemma string_leb_trans (a b c : string) :
  String.leb a b = true -> String.leb b c = true -> String.leb a c = true.
Proof.
  rewrite !string_leb_cases.
  intros [-> | Hab] [-> | Hbc]; auto.
  right. eapply string_compare_lt_trans; eauto.
Qed.

Lemma string_leb_false (a b : string) :
  String.leb a b = false -> String.leb b a = true.
Proof.
  intros H. destruct (String.leb_total a b); congruence.
Qed.

(* ------------------------------------------------------------------ *)
(** ** Properties of the sensor template expansion                       *)
(* ------------------------------------------------------------------ *)

Section SortedItems.

Context {V : Type}.
Implicit Types (x y : string * V) (l : list (string * V)).

Lemma insert_sorted_perm x l : Permutation (x :: l) (insert_sorted x l).
Proof.
  induction l as [|y l IH]; simpl; [reflexivity|].
  destruct (String.leb (fst x) (fst y)); [reflexivity|].
  rewrite perm_swap. now constructor.
Qed.

Lemma insert_sorted_hd x y l :
  name_le y x -> HdRel name_le y l -> HdRel name_le y (insert_sorted x l).
Proof.
  intros Hyx Hl.
  destruct l as [|z l]; simpl; [now constructor|].
  destruct (String.leb (fst x) (fst z)); constructor; [assumption|].
  now inversion Hl.
Qed.

Lemma insert_sorted_sorted x l :
  Sorted name_le l -> Sorted name_le (insert_sorted x l).
Proof.
  induction 1 as [|y l Hl IH Hhd]; simpl.
  - repeat constructor.
  - destruct (String.leb (fst x) (fst y)) eqn:E.
    + constructor; [now constructor | now constructor].
    + constructor; [assumption|].
      apply insert_sorted_hd; [|assumption].
      now apply string_leb_false.
Qed.

Lemma sorted_items_sorted (d : Dict.t V) : Sorted name_le (sorted_items d).
Proof.
  induction d as [|x d IH]; simpl; [constructor|].
  now apply insert_sorted_sorted.
Qed.

Lemma sorted_items_perm (d : Dict.t V) : Permutation d (sorted_items d).
Proof.
  induction d as [|x d IH]; simpl; [constructor|].
  rewrite <- insert_sorted_perm. now constructor.
Qed.

(** Insertions of two different names commute, whatever the list. *)
Lemma insert_sorted_comm x y l :
  fst x <> fst y ->
  insert_sorted x (insert_sorted y l) = insert_sorted y (insert_sorted x l).
Proof.
  intros Hxy.
  assert (Hcmp : String.leb (fst x) (fst y) = negb (String.leb (fst y) (fst x))).
  { destruct (String.leb (fst x) (fst y)) eqn:Exy,
             (String.leb (fst y) (fst x)) eqn:Eyx; try reflexivity.
    - exfalso. apply Hxy. now apply String.leb_antisym.
    - apply string_leb_false in Exy. congruence. }
  induction l as [|z l IH]; simpl.
  - rewrite Hcmp. now destruct (String.leb (fst y) (fst x)).
  - destruct (String.leb (fst y) (fst z)) eqn:Eyz,
             (String.leb (fst x) (fst z)) eqn:Exz; simpl;
      rewrite ?Eyz, ?Exz.
    + rewrite Hcmp. destruct (String.leb (fst y) (fst x)); simpl;
        now rewrite ?Eyz, ?Exz.
    + destruct (String.leb (fst x) (fst y)) eqn:Exy; [|reflexivity].
      rewrite (string_leb_trans _ _ _ Exy Eyz) in Exz. discriminate.
    + destruct (String.leb (fst y) (fst x)) eqn:Eyx; [|reflexivity].
      rewrite (string_leb_trans _ _ _ Eyx Exz) in Eyz. discriminate.
    + now rewrite IH.
Qed.

Lemma insert_sorted_keys x l :
  Permutation (fst x :: Dict.keys l) (Dict.keys (insert_sorted x l)).
Proof.
  unfold Dict.keys. change (fst x :: map fst l) with (map fst (x :: l)).
  apply Permutation_map, insert_sorted_perm.
Qed.

(** The sorted items of a dictionary do not depend on the order in which
    its entries were written. *)
Lemma sorted_items_order_independent (d d' : Dict.t V) :
  NoDup (Dict.keys d) -> Permutation d d' -> sorted_items d = sorted_items d'.
Proof.
  intros Hnd Hperm. revert Hnd.
  induction Hperm as [|x l l' Hperm IH|x y l|l l' l'' H1 IH1 H2 IH2];
    simpl; intros Hnd.
  - reflexivity.
  - inversion Hnd; subst. now rewrite IH.
  - apply insert_sorted_comm.
    inversion Hnd as [|? ? Hin _]; subst. simpl in Hin. intuition.
  - rewrite IH1 by assumption. apply IH2.
    eapply Permutation_NoDup; [|exact Hnd].
    unfold Dict.keys. now apply Permutation_map.
Qed.

End SortedItems.

Section ExpansionFacts.

Variables (serial_no alias_ : string) (model firmware : json).
Variables (mqtt_state_topic availability_topic : string).
Variable update_interval : Z.

Local Abbreviation descriptor_of :=
  (descriptor_of serial_no alias_ model firmware mqtt_state_topic
     availability_topic update_interval).
Local Abbreviation expand :=
  (expand_kinds serial_no alias_ model firmware mqtt_state_topic
     availability_topic update_interval).
Local Abbreviation init :=
  (Config_init serial_no alias_ model firmware mqtt_state_topic
     availability_topic update_interval).

Lemma expand_template_sensors sensor_type acc item acc' :
  expand_template serial_no alias_ model firmware mqtt_state_topic
    availability_topic update_interval sensor_type acc item = Ok acc' ->
  snd acc' = (snd acc ++ [descriptor_of sensor_type item])%list.
Proof.
  unfold expand_template, descriptor_of.
  destruct (pop_internal_config _) as [internal_config config]. simpl.
  destruct (resolve_type internal_config) as [vt|e]; simpl; [|discriminate].
  destruct (hashable _); [|discriminate].
  intros H. injection H as <-. reflexivity.
Qed.

Lemma expand_templates_sensors sensor_type items acc acc' :
  expand_templates serial_no alias_ model firmware mqtt_state_topic
    availability_topic update_interval sensor_type items acc = Ok acc' ->
  snd acc' = (snd acc ++ map (descriptor_of sensor_type) items)%list.
Proof.
  revert acc.
  induction items as [|item items IH]; simpl; intros acc H.
  - injection H as <-. now rewrite app_nil_r.
  - destruct (expand_template _ _ _ _ _ _ _ _ _ _) as [acc1|e] eqn:E;
      simpl in H; [|discriminate].
    apply IH in H. apply expand_template_sensors in E.
    rewrite H, E, <- app_assoc. reflexivity.
Qed.

Lemma expand_kinds_sensors raw kinds acc acc' :
  expand raw kinds acc = Ok acc' ->
  snd acc' = (snd acc
              ++ map (fun e => descriptor_of (fst e) (snd e))
                     (expansion_order raw kinds))%list.
Proof.
  revert acc.
  induction kinds as [|kind kinds IH]; simpl; intros acc H.
  - injection H as <-. now rewrite app_nil_r.
  - destruct (expand_templates _ _ _ _ _ _ _ _ _ _) as [acc1|e] eqn:E;
      simpl in H; [|discriminate].
    apply IH in H. apply expand_templates_sensors in E.
    rewrite H, E, map_app, map_map, <- app_assoc. reflexivity.
Qed.

Lemma expand_kinds_order_independent raw raw' kinds acc :
  (forall kind, In kind kinds ->
     NoDup (Dict.keys (raw_sensors raw kind))
     /\ Permutation (raw_sensors raw kind) (raw_sensors raw' kind)) ->
  expand raw kinds acc = expand raw' kinds acc.
Proof.
  revert acc.
  induction kinds as [|kind kinds IH]; simpl; intros acc H; [reflexivity|].
  destruct (H kind (or_introl eq_refl)) as [Hnd Hperm].
  rewrite (sorted_items_order_independent _ _ Hnd Hperm).
  destruct (expand_templates _ _ _ _ _ _ _ _ _ _) as [acc1|e]; simpl;
    [|reflexivity].
  apply IH. intros k Hk. apply H. now right.
Qed.

(** C8. Expansion is a function of the disk identity, the poll interval
    and the template mapping alone: two loads of the same templates, in
    whatever order the entries of a kind are written, give the same
    outcome (the same descriptors in the same order, or the same error);
    the descriptors come kind by kind in the order of [SENSOR_TYPES], and
    within a kind in the order of the template names. *)
Theorem expansion_deterministic_and_sorted (raw raw' : raw_config) :
  (forall kind, In kind SENSOR_TYPES ->
     NoDup (Dict.keys (raw_sensors raw kind))
     /\ Permutation (raw_sensors raw kind) (raw_sensors raw' kind)) ->
  init (Ok raw) = init (Ok raw')
  /\ (forall config, init (Ok raw) = Ok config ->
        sensors config
        = map (fun e => descriptor_of (fst e) (snd e))
              (expansion_order raw SENSOR_TYPES))
  /\ (forall kind, Sorted name_le (sorted_items (raw_sensors raw kind))).
Proof.
  intros H. unfold Config_init. cbn [bind].
  split; [|split].
  - now rewrite (expand_kinds_order_independent raw raw').
  - intros config.
    destruct (expand raw SENSOR_TYPES ([], [])) as [acc|e] eqn:E; cbn [bind];
      [|discriminate].
    intros Hc. injection Hc as <-. cbn [sensors].
    now apply expand_kinds_sensors in E.
  - intros kind. apply sorted_items_sorted.
Qed.

End ExpansionFacts.

Lemma expansion_deterministic_and_sorted_witness :
  sample_config
  = Config_init "S4EWNF0M123456" "samsung_ssd_970_evo_plus_s4ewnf0m123456"
      (JStr "Samsung SSD 970 EVO Plus 1TB") (JStr "2B2QEXM7")
      "hdsentinel/samsung_ssd_970_evo_plus_s4ewnf0m123456/hdsentinel"
      "hdsentinel/samsung_ssd_970_evo_plus_s4ewnf0m123456/availability"
      600 (Ok templates_b)
  /\ map fst (expansion_order templates_b SENSOR_TYPES) = ["sensor"; "sensor"]
  /\ map (fun e => fst (snd e)) (expansion_order templates_b SENSOR_TYPES)
     = ["health"; "temperature"].
Proof.
  split; [|split; reflexivity].
  apply (expansion_deterministic_and_sorted
           "S4EWNF0M123456" "samsung_ssd_970_evo_plus_s4ewnf0m123456"
           (JStr "Samsung SSD 970 EVO Plus 1TB") (JStr "2B2QEXM7")
           "hdsentinel/samsung_ssd_970_evo_plus_s4ewnf0m123456/hdsentinel"
           "hdsentinel/samsung_ssd_970_evo_plus_s4ewnf0m123456/availability"
           600 templates_a templates_b).
  intros kind [<- | [<- | []]]; split.
  - constructor.
  - reflexivity.
  - repeat constructor; simpl; intuition discriminate.
  - apply perm_swap.
Defined.

(** The types the expansion resolves for the sample templates. *)
Lemma sample_value_types :
  match sample_config with
  | Ok config =>
      value_types_get "hard_disk_health" (value_types config) = Some TInt
      /\ value_types_get "temperature" (value_types config) = Some TInt
      /\ value_types_get "hard_disk_model_id" (value_types config) = None
      /\ map topic (sensors config)
         = [ "homeassistant/sensor/hdsentinel_samsung_ssd_970_evo_plus_s4ewnf0m123456/hard_disk_health/config";
             "homeassistant/sensor/hdsentinel_samsung_ssd_970_evo_plus_s4ewnf0m123456/temperature/config" ]
  | Raise _ => False
  end.
Proof. repeat split. Qed.

(* ------------------------------------------------------------------ *)
(** ** Properties of the clients and of one step of the loop             *)
(* ------------------------------------------------------------------ *)

Lemma since_app (w new : list attempt) : since (length w) (w ++ new) = new.
Proof.
  unfold since. induction w as [|a w IH]; simpl; [reflexivity | exact IH].
Qed.

Lemma count_status_app (who status : string) (a b : list attempt) :
  count_status who status (a ++ b)
  = count_status who status a + count_status who status b.
Proof. unfold count_status. now rewrite filter_app, length_app. Qed.

Lemma is_status_by_client (who status : string) (a : attempt) :
  is_status who status a = true -> by_client who a = true.
Proof. unfold is_status, by_client. intros H. now apply andb_true_iff in H. Qed.

Lemma count_status_other (who status : string) (new : list attempt) :
  filter (by_client who) new = [] -> count_status who status new = 0.
Proof.
  unfold count_status.
  induction new as [|a new IH]; simpl; [reflexivity|].
  destruct (by_client who a) eqn:E; [discriminate|].
  intros H.
  destruct (is_status who status a) eqn:E'; [|auto].
  apply is_status_by_client in E'. congruence.
Qed.

Lemma filter_by_other (who k : string) (new : list attempt) :
  who <> k ->
  Forall (fun a => client_key a = k) new ->
  filter (by_client who) new = [].
Proof.
  intros Hne Hall.
  induction Hall as [|a new Ha Hall IH]; simpl; [reflexivity|].
  unfold by_client at 1. rewrite Ha.
  apply not_eq_sym in Hne.
  apply String.eqb_neq in Hne. now rewrite Hne.
Qed.

Lemma status_eqb_true (status : string) (published : option string) :
  status_eqb status published = true <-> published = Some status.
Proof.
  destruct published as [p|]; simpl.
  - rewrite String.eqb_eq. split; congruence.
  - split; discriminate.
Qed.

Section StepFacts.

Variable net : nat -> bool.
Variable mqtt_topic : string.


(** What [__publish_status] records and what it sends. *)
Lemma publish_status_effect who status c w :
  exists new,
    publish_status net who status (c, w)
    = ({| base_topic := base_topic c;
          status_topic := status_topic c;
          published_status := Some status |}, (w ++ new)%list)
    /\ Forall (fun a => client_key a = who) new
    /\ (forall other,
          count_status who other new
          = if status_eqb status (published_status c) then 0
            else if String.eqb status other then 1 else 0).
Proof.
  unfold publish_status.
  destruct (status_eqb status (published_status c)) eqn:E.
  - exists []. rewrite app_nil_r.
    apply status_eqb_true in E.
    destruct c as [b s p]; simpl in *; subst. now repeat split.
  - eexists. split; [reflexivity|]. split.
    + repeat constructor.
    + intros other. unfold count_status, is_status. cbn.
      rewrite String.eqb_refl. cbn.
      now destruct (String.eqb status other).
Qed.

Lemma main_loop_effect who c disk_state_topic config values w :
  exists new,
    main_loop net who c disk_state_topic config values w
    = ({| base_topic := base_topic c;
          status_topic := status_topic c;
          published_status := Some "online" |}, (w ++ new)%list)
    /\ Forall (fun a => client_key a = who) new
    /\ count_status who "online" new
       = (if status_eqb "online" (published_status c) then 0 else 1)
    /\ count_status who "offline" new = 0.
Proof.
  unfold main_loop, publish_online_status, publish_single, transport.
  match goal with
  | |- context [publish_status net who "online" (c, ?w1)] =>
      destruct (publish_status_effect who "online" c w1) as (new & E & Hall & Hcount)
  end.
  rewrite E, <- app_assoc. eexists. split; [reflexivity|].
  split; [constructor; [reflexivity | assumption]|].
  split.
  - change (?a :: new) with ([a] ++ new)%list.
    rewrite count_status_app, (Hcount "online").
    unfold count_status, is_status. cbn. rewrite andb_false_r. cbn.
    now destruct (status_eqb "online" (published_status c)).
  - change (?a :: new) with ([a] ++ new)%list.
    rewrite count_status_app, (Hcount "offline").
    unfold count_status, is_status. cbn. rewrite andb_false_r. cbn.
    now destruct (status_eqb "online" (published_status c)).
Qed.

(** One disk of a fresh snapshot: what the step sends in the name of the
    disk, and what it leaves alone. *)
Lemma process_disk_effect w k values :
  exists new,
    wire (process_disk net mqtt_topic w (k, values)) = (wire w ++ new)%list
    /\ configs (process_disk net mqtt_topic w (k, values)) = configs w
    /\ Forall (fun a => client_key a = k) new
    /\ (forall s, s <> k ->
          Dict.get s (mqtt_clients (process_disk net mqtt_topic w (k, values)))
          = Dict.get s (mqtt_clients w))
    /\ (Dict.mem k (mqtt_clients w) = true ->
        Dict.mem k (mqtt_clients (process_disk net mqtt_topic w (k, values))) = true)
    /\ count_status k "offline" new = 0
    /\ (if Dict.mem k (configs w)
        then status_in (process_disk net mqtt_topic w (k, values)) k = Some "online"
             /\ count_status k "online" new
                = (if status_eqb "online" (status_in w k) then 0 else 1)
        else process_disk net mqtt_topic w (k, values) = w /\ new = []).
Proof.
  unfold process_disk, Dict.mem, status_in.
  destruct (Dict.get k (configs w)) as [config|] eqn:Hcfg.
  - destruct (Dict.get k (mqtt_clients w)) as [c|] eqn:Hc.
    + destruct (main_loop_effect k c (get_abs_topic c ["hdsentinel"]) config
                  values (wire w)) as (new & E & Hall & Hon & Hoff).
      rewrite E. cbn [wire configs mqtt_clients].
      exists new. repeat split; try assumption.
      * intros s Hs. apply get_set_other. congruence.
      * intros _. now rewrite get_set_same.
      * now rewrite get_set_same.
    + destruct (main_loop_effect k
                  (new_client (mqtt_topic ++ "/" ++ alias config))
                  (get_abs_topic
                     (new_client (mqtt_topic ++ "/" ++ alias config))
                     ["hdsentinel"]) config
                  values (wire w)) as (new & E & Hall & Hon & Hoff).
      rewrite E. cbn [wire configs mqtt_clients].
      exists new. repeat split; try assumption.
      * intros s Hs. rewrite !get_set_other by congruence. reflexivity.
      * intros _. now rewrite get_set_same.
      * now rewrite get_set_same.
  - exists []. rewrite app_nil_r. repeat split; auto.
Qed.

End StepFacts.

(* ------------------------------------------------------------------ *)
(** ** Properties of a Steady cycle                                      *)
(* ------------------------------------------------------------------ *)

Lemma mem_cons {V : Type} (s k : string) (v : V) (d : Dict.t V) :
  Dict.mem s ((k, v) :: d) = String.eqb k s || Dict.mem s d.
Proof. unfold Dict.mem. simpl. now destruct (String.eqb k s). Qed.

Lemma mem_in_keys {V : Type} (s : string) (d : Dict.t V) :
  Dict.mem s d = true <-> In s (Dict.keys d).
Proof.
  rewrite get_in_keys. unfold Dict.mem.
  destruct (Dict.get s d); split; eauto; try discriminate.
  intros [v H]. discriminate.
Qed.

Lemma status_in_same (w w' : World) (s : string) :
  Dict.get s (mqtt_clients w') = Dict.get s (mqtt_clients w) ->
  status_in w' s = status_in w s.
Proof. unfold status_in. now intros ->. Qed.

Section CycleFacts.

Variable net : nat -> bool.
Variable mqtt_topic : string.

(** One cycle, seen from the disk [s]. *)
Lemma steady_cycle_effect (disks : snapshot) (w : World) (s : string) :
  exists new,
    wire (steady_cycle net mqtt_topic w disks) = (wire w ++ new)%list
    /\ configs (steady_cycle net mqtt_topic w disks) = configs w
    /\ (Dict.mem s disks = false ->
        filter (by_client s) new = []
        /\ Dict.get s (mqtt_clients (steady_cycle net mqtt_topic w disks))
           = Dict.get s (mqtt_clients w))
    /\ (Dict.mem s (mqtt_clients w) = true ->
        Dict.mem s (mqtt_clients (steady_cycle net mqtt_topic w disks)) = true)
    /\ count_status s "offline" new = 0
    /\ count_status s "online" new
       = (if Dict.mem s disks && Dict.mem s (configs w)
             && negb (status_eqb "online" (status_in w s))
          then 1 else 0)
    /\ status_in (steady_cycle net mqtt_topic w disks) s
       = (if Dict.mem s disks && Dict.mem s (configs w)
          then Some "online" else status_in w s).
Proof.
  revert w.
  induction disks as [|[k values] disks IH]; intros w.
  - exists []. cbn. rewrite app_nil_r. repeat split; auto.
  - unfold steady_cycle in *. cbn [fold_left].
    destruct (process_disk_effect net mqtt_topic w k values)
      as (new1 & Hw1 & Hc1 & Hall1 & Hget1 & Hmem1 & Hoff1 & Hreg1).
    destruct (IH (process_disk net mqtt_topic w (k, values)))
      as (new2 & Hw2 & Hc2 & Habs2 & Hmem2 & Hoff2 & Hon2 & Hst2).
    exists (new1 ++ new2)%list.
    rewrite Hw2, Hw1, Hc2, Hc1, <- app_assoc.
    split; [reflexivity|]. split; [reflexivity|].
    rewrite !count_status_app, Hoff2, Hon2, Hst2, Hc1, mem_cons.
    destruct (String.eqb_spec k s) as [-> | Hks]; cbn [orb].
    + (* the disk itself *)
      split; [discriminate|].
      split; [auto|].
      split; [now rewrite Hoff1|].
      destruct (Dict.mem s (configs w)) eqn:Hreg.
      * destruct Hreg1 as [Hst1 Hon1]. rewrite Hst1, Hon1. cbn.
        rewrite !andb_false_r.
        split; [|now destruct (Dict.mem s disks)].
        destruct (status_eqb "online" (status_in w s)); reflexivity.
      * destruct Hreg1 as [-> ->]. cbn. rewrite !andb_false_r. cbn.
        split; reflexivity.
    + (* another disk *)
      assert (Hs : s <> k) by congruence.
      pose proof (filter_by_other s k new1 Hs Hall1) as Hnone.
      rewrite !(count_status_other s _ new1 Hnone).
      rewrite (status_in_same w _ s (Hget1 s Hs)).
      split.
      { intros Habs. destruct (Habs2 Habs) as [Hf Hg].
        split; [now rewrite filter_app, Hnone, Hf|].
        now rewrite Hg, Hget1. }
      split.
      { intros Hm. apply Hmem2. unfold Dict.mem in *.
        now rewrite Hget1. }
      repeat split; reflexivity.
Qed.

(** Several cycles, seen from the disk [s]. *)
Lemma steady_cycles_effect (polls : list snapshot) (w : World) (s : string) :
  exists new,
    wire (steady_cycles net mqtt_topic w polls) = (wire w ++ new)%list
    /\ configs (steady_cycles net mqtt_topic w polls) = configs w
    /\ (Dict.mem s (mqtt_clients w) = true ->
        Dict.mem s (mqtt_clients (steady_cycles net mqtt_topic w polls)) = true)
    /\ count_status s "offline" new = 0
    /\ (status_in w s = Some "online" ->
        count_status s "online" new = 0
        /\ status_in (steady_cycles net mqtt_topic w polls) s = Some "online")
    /\ (status_in w s <> Some "offline" ->
        status_in (steady_cycles net mqtt_topic w polls) s <> Some "offline").
Proof.
  revert w.
  induction polls as [|disks polls IH]; intros w.
  - exists []. cbn. rewrite app_nil_r. repeat split; auto.
  - unfold steady_cycles in *. cbn [fold_left].
    destruct (steady_cycle_effect disks w s)
      as (new1 & Hw1 & Hc1 & _ & Hmem1 & Hoff1 & Hon1 & Hst1).
    destruct (IH (steady_cycle net mqtt_topic w disks))
      as (new2 & Hw2 & Hc2 & Hmem2 & Hoff2 & Hon2 & Hnever2).
    exists (new1 ++ new2)%list.
    rewrite Hw2, Hw1, Hc2, Hc1, <- app_assoc.
    split; [reflexivity|]. split; [reflexivity|].
    split; [auto|].
    split; [now rewrite count_status_app, Hoff1, Hoff2|].
    split.
    + intros Honline.
      assert (Hst : status_in (steady_cycle net mqtt_topic w disks) s
                    = Some "online").
      { rewrite Hst1, Honline.
        now destruct (Dict.mem s disks && Dict.mem s (configs w)). }
      destruct (Hon2 Hst) as [Hcount Hafter].
      split; [|assumption].
      rewrite count_status_app, Hcount, Hon1, Honline. cbn.
      now rewrite andb_false_r.
    + intros Hnever. apply Hnever2. rewrite Hst1.
      destruct (Dict.mem s disks && Dict.mem s (configs w));
        [discriminate | assumption].
Qed.

(** C2, as amended. In a Steady cycle nothing is sent in the name of a disk
    that is absent from the fresh snapshot, neither an availability nor a
    state, and its client keeps the availability it last recorded. *)
Theorem absent_disk_untouched (w : World) (disks : snapshot) (serial : string) :
  ~ In serial (Dict.keys disks) ->
  filter (by_client serial)
    (since (length (wire w)) (wire (steady_cycle net mqtt_topic w disks))) = []
  /\ count_status serial "offline"
       (since (length (wire w)) (wire (steady_cycle net mqtt_topic w disks))) = 0
  /\ count_status serial "online"
       (since (length (wire w)) (wire (steady_cycle net mqtt_topic w disks))) = 0
  /\ Dict.get serial (mqtt_clients (steady_cycle net mqtt_topic w disks))
     = Dict.get serial (mqtt_clients w).
Proof.
  intros Habsent.
  assert (Hmem : Dict.mem serial disks = false).
  { destruct (Dict.mem serial disks) eqn:E; [|reflexivity].
    apply mem_in_keys in E. contradiction. }
  destruct (steady_cycle_effect disks w serial)
    as (new & Hw & _ & Habs & _ & _ & _ & _).
  destruct (Habs Hmem) as [Hnone Hget].
  rewrite Hw, since_app.
  repeat split; auto using count_status_other.
Qed.

(** C3. Over two consecutive Steady cycles in which a registered disk is
    present, its client sends "online" at most once: in the first cycle,
    and only when the availability it last recorded is not already
    "online"; never in the second. *)
Theorem online_published_at_most_once
        (w : World) (disks1 disks2 : snapshot) (serial : string) :
  In serial (Dict.keys (configs w)) ->
  In serial (Dict.keys disks1) ->
  In serial (Dict.keys disks2) ->
  let w1 := steady_cycle net mqtt_topic w disks1 in
  let w2 := steady_cycle net mqtt_topic w1 disks2 in
  count_status serial "online" (since (length (wire w)) (wire w1))
  = (if status_eqb "online" (status_in w serial) then 0 else 1)
  /\ count_status serial "online" (since (length (wire w1)) (wire w2)) = 0
  /\ count_status serial "online" (since (length (wire w)) (wire w2)) <= 1.
Proof.
  intros Hreg Hin1 Hin2 w1 w2.
  apply mem_in_keys in Hreg, Hin1, Hin2.
  destruct (steady_cycle_effect disks1 w serial)
    as (new1 & Hw1 & Hc1 & _ & _ & _ & Hon1 & Hst1).
  destruct (steady_cycle_effect disks2 w1 serial)
    as (new2 & Hw2 & _ & _ & _ & _ & Hon2 & _).
  fold w1 in Hw1, Hc1, Hst1. fold w2 in Hw2.
  rewrite Hin1, Hreg in Hon1, Hst1. cbn in Hon1, Hst1.
  rewrite Hin2, Hc1, Hreg, Hst1 in Hon2. cbn in Hon2.
  split; [|split].
  - rewrite Hw1, since_app, Hon1.
    now destruct (status_eqb "online" (status_in w serial)).
  - now rewrite Hw2, since_app.
  - rewrite Hw2, Hw1, <- app_assoc, since_app, count_status_app, Hon1, Hon2.
    destruct (status_eqb "online" (status_in w serial)); cbn; auto.
Qed.

(** C9. [__publish_status] records the requested availability whether or
    not the transport took the message; so once a Steady cycle has handled
    a registered disk its client holds "online", and no later cycle sends
    "online" for it again. *)
Theorem status_recorded_even_if_publish_fails
        (w : World) (disks : snapshot) (polls : list snapshot) (serial : string)
        (status : string) (c : HaCapableMqttClient) (sent : list attempt) :
  In serial (Dict.keys (configs w)) ->
  In serial (Dict.keys disks) ->
  let w1 := steady_cycle net mqtt_topic w disks in
  published_status (fst (publish_status net serial status (c, sent)))
  = Some status
  /\ status_in w1 serial = Some "online"
  /\ count_status serial "online"
       (since (length (wire w1)) (wire (steady_cycles net mqtt_topic w1 polls)))
     = 0.
Proof.
  intros Hreg Hin w1.
  apply mem_in_keys in Hreg, Hin.
  split.
  { destruct (publish_status_effect net serial status c sent) as (new & E & _).
    now rewrite E. }
  destruct (steady_cycle_effect disks w serial)
    as (new1 & _ & _ & _ & _ & _ & _ & Hst1).
  fold w1 in Hst1. rewrite Hin, Hreg in Hst1. cbn in Hst1.
  split; [assumption|].
  destruct (steady_cycles_effect polls w1 serial)
    as (new2 & Hw2 & _ & _ & _ & Hon2 & _).
  rewrite Hw2, since_app. now apply Hon2.
Qed.

End CycleFacts.

(* ------------------------------------------------------------------ *)
(** ** Properties of Bootstrapping and Draining                          *)
(* ------------------------------------------------------------------ *)

Section DrainFacts.

Variable net : nat -> bool.
Variable mqtt_topic : string.
Variable config_yml : result raw_config.
Variable update_interval : Z.

(** A client that was just created has published nothing. *)
Lemma setup_disk_status (w : World) (disk : string * Dict.t xval) (s : string) :
  status_in w s = None ->
  status_in (setup_disk net mqtt_topic config_yml update_interval w disk) s
  = None.
Proof.
  intros Hnone. destruct disk as [k values]. unfold setup_disk.
  destruct (model_argument _) as [model_id|e]; [|assumption].
  assert (Hset : forall c,
             published_status c = None ->
             match Dict.get s (Dict.set k c (mqtt_clients w)) with
             | Some c' => published_status c'
             | None => None
             end = None).
  { intros c Hc. destruct (String.eqb_spec k s) as [-> | Hks].
    - now rewrite get_set_same.
    - rewrite get_set_other by assumption. exact Hnone. }
  destruct (Config_init _ _ _ _ _ _ _ _) as [config|e];
    unfold status_in; cbn [mqtt_clients]; now apply Hset.
Qed.

Lemma bootstrap_status (first : snapshot) (s : string) :
  status_in (bootstrap net mqtt_topic config_yml update_interval first) s = None.
Proof.
  unfold bootstrap.
  assert (H : status_in empty_world s = None) by reflexivity.
  revert H. generalize empty_world.
  induction first as [|disk first IH]; intros w Hw; simpl; [assumption|].
  apply IH. now apply setup_disk_status.
Qed.

(** Draining, one client: what the step sends and records. *)
Lemma drain_client_effect (w : World) (k : string) :
  exists new,
    wire (drain_client net w k) = (wire w ++ new)%list
    /\ Forall (fun a => client_key a = k) new
    /\ (forall s, s <> k ->
          Dict.get s (mqtt_clients (drain_client net w k))
          = Dict.get s (mqtt_clients w))
    /\ (if Dict.mem k (mqtt_clients w)
        then status_in (drain_client net w k) k = Some "offline"
             /\ count_status k "offline" new
                = (if status_eqb "offline" (status_in w k) then 0 else 1)
        else drain_client net w k = w /\ new = []).
Proof.
  unfold drain_client, Dict.mem, status_in.
  destruct (Dict.get k (mqtt_clients w)) as [c|] eqn:Hc.
  - unfold publish_offline_status.
    destruct (publish_status_effect net k "offline" c (wire w))
      as (new & E & Hall & Hcount).
    rewrite E. cbn [wire mqtt_clients].
    exists new. repeat split; try assumption.
    + intros s Hs. apply get_set_other. congruence.
    + now rewrite get_set_same.
    + rewrite (Hcount "offline").
      now destruct (status_eqb "offline" (published_status c)).
  - exists []. rewrite app_nil_r. repeat split; auto.
Qed.

Lemma drain_fold_effect (keys : list string) (w : World) (s : string) :
  exists new,
    wire (fold_left (drain_client net) keys w) = (wire w ++ new)%list
    /\ count_status s "offline" new
       = (if existsb (String.eqb s) keys && Dict.mem s (mqtt_clients w)
             && negb (status_eqb "offline" (status_in w s))
          then 1 else 0)
    /\ (existsb (String.eqb s) keys && Dict.mem s (mqtt_clients w) = true ->
        status_in (fold_left (drain_client net) keys w) s = Some "offline").
Proof.
  revert w.
  induction keys as [|k keys IH]; intros w.
  - exists []. cbn. rewrite app_nil_r. repeat split; auto. discriminate.
  - cbn [fold_left existsb].
    destruct (drain_client_effect w k) as (new1 & Hw1 & Hall1 & Hget1 & Hk1).
    destruct (IH (drain_client net w k)) as (new2 & Hw2 & Hoff2 & Hst2).
    exists (new1 ++ new2)%list.
    rewrite Hw2, Hw1, <- app_assoc. split; [reflexivity|].
    rewrite count_status_app, Hoff2.
    destruct (String.eqb_spec s k) as [<- | Hsk]; cbn [orb].
    + destruct (Dict.mem s (mqtt_clients w)) eqn:Hmem.
      * destruct Hk1 as [Hst1 Hcount1].
        assert (Hmem1 : Dict.mem s (mqtt_clients (drain_client net w s)) = true).
        { unfold Dict.mem. unfold status_in in Hst1.
          destruct (Dict.get s (mqtt_clients (drain_client net w s)));
            [reflexivity | discriminate]. }
        rewrite Hcount1, Hst1, Hmem1. cbn. rewrite !andb_false_r. cbn.
        split.
        { now destruct (status_eqb "offline" (status_in w s)). }
        intros _. destruct (existsb (String.eqb s) keys) eqn:Hex.
        { apply Hst2. now rewrite Hmem1. }
        clear - Hst1 Hget1 Hex.
        revert Hst1. generalize (drain_client net w s).
        induction keys as [|k keys IHk]; intros w1 Hst1; [assumption|].
        cbn in Hex. apply orb_false_iff in Hex as [Hsk Hex].
        cbn [fold_left]. apply IHk; [assumption|].
        destruct (drain_client_effect w1 k) as (_ & _ & _ & Hget & _).
        rewrite (status_in_same w1 _ s); [assumption|].
        apply Hget. now apply String.eqb_neq.
      * destruct Hk1 as [-> ->]. rewrite Hmem. cbn.
        rewrite !andb_false_r. cbn. split; [reflexivity | discriminate].
    + pose proof (filter_by_other s k new1 Hsk Hall1) as Hnone.
      rewrite (count_status_other s _ new1 Hnone).
      unfold Dict.mem in *.
      rewrite (status_in_same w _ s (Hget1 s Hsk)) in *.
      rewrite (Hget1 s Hsk) in *.
      split; [reflexivity | assumption].
Qed.

Lemma existsb_keys {V : Type} (s : string) (d : Dict.t V) :
  existsb (String.eqb s) (Dict.keys d) = Dict.mem s d.
Proof.
  induction d as [|[k v] d IH]; [reflexivity|].
  rewrite mem_cons, <- IH, (String.eqb_sym k s). reflexivity.
Qed.

(** Draining sends "offline" for a client exactly when the availability it
    last recorded is not "offline" already. *)
Lemma drain_effect (w : World) (s : string) :
  In s (Dict.keys (mqtt_clients w)) ->
  count_status s "offline" (since (length (wire w)) (wire (drain net w)))
  = (if status_eqb "offline" (status_in w s) then 0 else 1)
  /\ status_in (drain net w) s = Some "offline".
Proof.
  intros Hin. apply mem_in_keys in Hin. unfold drain.
  destruct (drain_fold_effect (Dict.keys (mqtt_clients w)) w s)
    as (new & Hw & Hcount & Hst).
  rewrite existsb_keys, Hin in Hcount, Hst. cbn in Hcount, Hst.
  rewrite Hw, since_app, Hcount.
  split; [|now apply Hst].
  now destruct (status_eqb "offline" (status_in w s)).
Qed.

(** Before Draining a client has recorded "online" or nothing: no Steady
    cycle records another availability. *)
Lemma steady_cycles_status (polls : list snapshot) (w : World) (s : string) :
  status_in w s = None \/ status_in w s = Some "online" ->
  status_in (steady_cycles net mqtt_topic w polls) s = None
  \/ status_in (steady_cycles net mqtt_topic w polls) s = Some "online".
Proof.
  unfold steady_cycles. revert w.
  induction polls as [|disks polls IH]; cbn [fold_left]; intros w Hw;
    [assumption|].
  apply IH.
  destruct (steady_cycle_effect net mqtt_topic disks w s)
    as (new & _ & _ & _ & _ & _ & _ & Hst).
  rewrite Hst.
  destruct (Dict.mem s disks && Dict.mem s (configs w)); [now right | exact Hw].
Qed.

(** C5. When [main] leaves the loop, Draining attempts one "offline"
    publication for every client created during Bootstrapping, whichever
    availability the client last recorded ("online", or none yet) and
    whatever the transport answers to this or to any other attempt;
    afterwards the client holds "offline". *)
Theorem drain_publishes_offline_for_every_client
        (first poll : snapshot) (polls : list snapshot) (serial : string) :
  In serial
     (Dict.keys
        (mqtt_clients
           (bootstrap net mqtt_topic config_yml update_interval first))) ->
  let w := steady_cycles net mqtt_topic
             (bootstrap net mqtt_topic config_yml update_interval first)
             (poll :: polls) in
  main net mqtt_topic config_yml update_interval first poll polls
  = (0%Z, drain net w)
  /\ (status_in w serial = None \/ status_in w serial = Some "online")
  /\ count_status serial "offline"
       (since (length (wire w)) (wire (drain net w))) = 1
  /\ status_in (drain net w) serial = Some "offline".
Proof.
  intros Hin w.
  split.
  { unfold main. destruct first; [contradiction Hin | reflexivity]. }
  assert (Hcases : status_in w serial = None
                   \/ status_in w serial = Some "online").
  { apply steady_cycles_status. left. apply bootstrap_status. }
  split; [exact Hcases|].
  destruct (steady_cycles_effect net mqtt_topic (poll :: polls)
              (bootstrap net mqtt_topic config_yml update_interval first)
              serial)
    as (new & _ & _ & Hmem & _).
  fold w in Hmem.
  apply mem_in_keys in Hin. apply Hmem, mem_in_keys in Hin.
  destruct (drain_effect w serial Hin) as [Hcount Hst].
  rewrite Hcount.
  split; [|assumption].
  destruct Hcases as [-> | ->]; reflexivity.
Qed.

End DrainFacts.

(* ------------------------------------------------------------------ *)
(** ** The publish loop on the sample disks                              *)
(* ------------------------------------------------------------------ *)

Lemma booted_registers_both :
  Dict.keys (configs (booted always_up)) = ["S13PJ90S113060"; "S13PJ90S113054"]
  /\ map (fun c => base_topic (snd c)) (mqtt_clients (booted always_up))
     = [ "hdsentinel/samsung_hd103_uj_s13pj90s113060";
         "hdsentinel/samsung_hd103_uj_s13pj90s113054" ]
  /\ length (wire (booted always_up)) = 2.
Proof. repeat split. Qed.

(** C1. [main_loop] does not look at its [config]: with a template that
    declares [hard_disk_health] as [int], the state document still carries
    the raw string ["100 %"], where the earlier script's [main_loop] puts
    the number 100. *)
Theorem main_loop_publishes_raw_values :
  (forall net who client disk_state_topic config config' values sent,
      main_loop net who client disk_state_topic config values sent
      = main_loop net who client disk_state_topic config' values sent)
  /\ value_types_get "hard_disk_health" (value_types health_config) = Some TInt
  /\ snd (main_loop always_up "S13PJ90S113060"
            (new_client "hdsentinel/samsung_hd103_uj_s13pj90s113060")
            "hdsentinel/samsung_hd103_uj_s13pj90s113060/hdsentinel"
            health_config [("Hard_Disk_Health", XText "100 %")] [])
     = [ {| client_key := "S13PJ90S113060";
            request :=
              Single
                {| msg_topic :=
                     "hdsentinel/samsung_hd103_uj_s13pj90s113060/hdsentinel";
                   msg_payload :=
                     Json (JObj [("hard_disk_health", JStr "100 %")]);
                   msg_retain := false |};
            delivered := true |};
         {| client_key := "S13PJ90S113060";
            request :=
              Single
                {| msg_topic :=
                     "hdsentinel/samsung_hd103_uj_s13pj90s113060/availability";
                   msg_payload := Text "online";
                   msg_retain := true |};
            delivered := true |} ]
  /\ Legacy.coerce (value_types health_config) "hard_disk_health" "100 %"
     = Ok (Legacy.CInt 100).
Proof. repeat split. Qed.

Lemma absent_disk_untouched_witness :
  ~ In "S13PJ90S113054" (Dict.keys [disk_a])
  /\ filter (by_client "S13PJ90S113054")
       (since (length (wire (booted always_up)))
          (wire (steady_cycle always_up "hdsentinel" (booted always_up)
                   [disk_a]))) = []
  /\ Dict.get "S13PJ90S113054"
       (mqtt_clients
          (steady_cycle always_up "hdsentinel" (booted always_up) [disk_a]))
     = Dict.get "S13PJ90S113054" (mqtt_clients (booted always_up)).
Proof.
  assert (H : ~ In "S13PJ90S113054" (Dict.keys [disk_a])).
  { simpl. intros [H | []]. discriminate H. }
  split; [exact H|].
  pose proof (absent_disk_untouched always_up "hdsentinel" (booted always_up)
                [disk_a] "S13PJ90S113054" H) as (Hnone & _ & _ & Hget).
  split; assumption.
Defined.

(** C2, as stated, fails: a registered disk that is missing from the fresh
    snapshot, and whose client has not recorded "offline", gets no
    "offline" message in that cycle (the claim says exactly one). *)
Lemma absent_disk_gets_no_offline :
  Dict.mem "S13PJ90S113054" (configs (booted always_up)) = true
  /\ Dict.mem "S13PJ90S113054" [disk_a] = false
  /\ status_in (booted always_up) "S13PJ90S113054" = None
  /\ count_status "S13PJ90S113054" "offline"
       (since (length (wire (booted always_up)))
          (wire (steady_cycle always_up "hdsentinel" (booted always_up)
                   [disk_a]))) = 0
  /\ count_status "S13PJ90S113054" "offline"
       (since (length (wire (booted always_up)))
          (wire (steady_cycle always_up "hdsentinel" (booted always_up)
                   [disk_a]))) <> 1.
Proof. repeat split. vm_compute. discriminate. Qed.

Lemma online_published_at_most_once_witness :
  count_status "S13PJ90S113060" "online"
    (since (length (wire (booted always_up)))
       (wire (steady_cycle always_up "hdsentinel" (booted always_up)
                [disk_a; disk_b]))) = 1
  /\ count_status "S13PJ90S113060" "online"
       (since
          (length
             (wire (steady_cycle always_up "hdsentinel" (booted always_up)
                      [disk_a; disk_b])))
          (wire
             (steady_cycle always_up "hdsentinel"
                (steady_cycle always_up "hdsentinel" (booted always_up)
                   [disk_a; disk_b])
                [disk_a]))) = 0
  /\ count_status "S13PJ90S113060" "online"
       (since (length (wire (booted always_up)))
          (wire
             (steady_cycle always_up "hdsentinel"
                (steady_cycle always_up "hdsentinel" (booted always_up)
                   [disk_a; disk_b])
                [disk_a]))) <= 1.
Proof.
  apply (online_published_at_most_once always_up "hdsentinel"
           (booted always_up) [disk_a; disk_b] [disk_a] "S13PJ90S113060").
  - vm_compute. left. reflexivity.
  - simpl. left. reflexivity.
  - simpl. left. reflexivity.
Defined.

(** With a broker that refuses every message the "online" publication of
    the first cycle fails, is recorded all the same, and is not repeated. *)
Lemma status_recorded_even_if_publish_fails_witness :
  published_status
    (fst (publish_status always_down "S13PJ90S113060" "online"
            (new_client "hdsentinel/samsung_hd103_uj_s13pj90s113060", [])))
  = Some "online"
  /\ status_in
       (steady_cycle always_down "hdsentinel" (booted always_down) [disk_a])
       "S13PJ90S113060" = Some "online"
  /\ count_status "S13PJ90S113060" "online"
       (since
          (length
             (wire (steady_cycle always_down "hdsentinel" (booted always_down)
                      [disk_a])))
          (wire
             (steady_cycles always_down "hdsentinel"
                (steady_cycle always_down "hdsentinel" (booted always_down)
                   [disk_a])
                [[disk_a]; [disk_a; disk_b]]))) = 0.
Proof.
  apply (status_recorded_even_if_publish_fails always_down "hdsentinel"
           (booted always_down) [disk_a] [[disk_a]; [disk_a; disk_b]]
           "S13PJ90S113060" "online"
           (new_client "hdsentinel/samsung_hd103_uj_s13pj90s113060") []).
  - vm_compute. left. reflexivity.
  - simpl. left. reflexivity.
Defined.

(** The failed attempts of that cycle: the state and the "online"
    availability of the disk, neither delivered. *)
Lemma failed_cycle_attempts :
  map delivered
    (since (length (wire (booted always_down)))
       (wire (steady_cycle always_down "hdsentinel" (booted always_down)
                [disk_a])))
  = [false; false].
Proof. reflexivity. Qed.

Lemma drain_publishes_offline_for_every_client_witness :
  In "S13PJ90S113054"
     (Dict.keys
        (mqtt_clients
           (bootstrap always_down "hdsentinel" (Ok templates_a) 600
              [disk_a; disk_b])))
  /\ main always_down "hdsentinel" (Ok templates_a) 600
       [disk_a; disk_b] [disk_a] []
     = (0%Z,
        drain always_down
          (steady_cycles always_down "hdsentinel"
             (bootstrap always_down "hdsentinel" (Ok templates_a) 600
                [disk_a; disk_b])
             [[disk_a]]))
  /\ count_status "S13PJ90S113054" "offline"
       (since
          (length
             (wire
                (steady_cycles always_down "hdsentinel"
                   (bootstrap always_down "hdsentinel" (Ok templates_a) 600
                      [disk_a; disk_b])
                   [[disk_a]])))
          (wire
             (drain always_down
                (steady_cycles always_down "hdsentinel"
                   (bootstrap always_down "hdsentinel" (Ok templates_a) 600
                      [disk_a; disk_b])
                   [[disk_a]])))) = 1.
Proof.
  assert (H : In "S13PJ90S113054"
                (Dict.keys
                   (mqtt_clients
                      (bootstrap always_down "hdsentinel" (Ok templates_a) 600
                         [disk_a; disk_b])))).
  { vm_compute. right. left. reflexivity. }
  split; [exact H|].
  pose proof (drain_publishes_offline_for_every_client always_down
                "hdsentinel" (Ok templates_a) 600 [disk_a; disk_b] [disk_a] []
                "S13PJ90S113054" H) as (Hmain & _ & Hcount & _).
  split; assumption.
Defined.

(** [publish_offline_status] on a client that holds "offline" sends
    nothing, and neither does a second Draining pass.  No run comes to
    this: Draining is the only caller and runs once. *)
Lemma second_drain_sends_nothing :
  publish_offline_status always_up "S13PJ90S113060"
    (set_published_status
       (new_client "hdsentinel/samsung_hd103_uj_s13pj90s113060") "offline",
     [])
  = (set_published_status
       (new_client "hdsentinel/samsung_hd103_uj_s13pj90s113060") "offline",
     [])
  /\ In "S13PJ90S113060"
       (Dict.keys (mqtt_clients (drain always_up (booted always_up))))
  /\ status_in (drain always_up (booted always_up)) "S13PJ90S113060"
     = Some "offline"
  /\ wire (drain always_up (drain always_up (booted always_up)))
     = wire (drain always_up (booted always_up))
  /\ count_status "S13PJ90S113060" "offline"
       (since (length (wire (drain always_up (booted always_up))))
          (wire (drain always_up (drain always_up (booted always_up))))) = 0.
Proof. repeat split. vm_compute. left. reflexivity. Qed.

(* ------------------------------------------------------------------ *)
(** ** The shape of normalized identifiers and of aliases                *)
(* ------------------------------------------------------------------ *)

(** Facts about single characters, by inspection of the 256 of them. *)
Ltac by_cases_on_char c :=
  destruct c as [[|] [|] [|] [|] [|] [|] [|] [|]]; vm_compute; intuition congruence.

Lemma lower_char_safe (c : ascii) :
  Text.is_alnum c || Ascii.eqb c "_" = true -> safe_char (Text.lower_char c) = true.
Proof. by_cases_on_char c. Qed.

Lemma lower_char_underscore (c : ascii) :
  Ascii.eqb (Text.lower_char c) "_" = Ascii.eqb c "_".
Proof. by_cases_on_char c. Qed.

Lemma lower_char_fixed (c : ascii) :
  safe_char c = true -> Text.lower_char c = c.
Proof. by_cases_on_char c. Qed.

Lemma safe_char_alnum (c : ascii) :
  safe_char c = true -> Text.is_alnum c = negb (Ascii.eqb c "_").
Proof. by_cases_on_char c. Qed.

Lemma safe_char_plain (c : ascii) : safe_char c = true -> plain_char c = true.
Proof. by_cases_on_char c. Qed.

Lemma lower_char_plain (c : ascii) :
  negb (Text.is_space c) && negb (Ascii.eqb c "-") = true ->
  plain_char (Text.lower_char c) = true.
Proof. by_cases_on_char c. Qed.

Section ShapeFacts.

Variable a : ascii.
Local Abbreviation is_a := (fun d : ascii => Ascii.eqb d a).

Lemma lstrip_forallb (p : ascii -> bool) (s : string) :
  Text.forallb p s = true -> Text.forallb p (Text.lstrip a s) = true.
Proof.
  induction s as [|c s IH]; simpl; [auto|].
  intros H. apply andb_true_iff in H as [Hc Hs].
  destruct (Ascii.eqb c a); [auto|]. simpl. now rewrite Hc, Hs.
Qed.

Lemma rstrip_forallb (p : ascii -> bool) (s : string) :
  Text.forallb p s = true -> Text.forallb p (Text.rstrip a s) = true.
Proof.
  induction s as [|c s IH]; simpl; [auto|].
  intros H. apply andb_true_iff in H as [Hc Hs].
  specialize (IH Hs).
  destruct (Text.rstrip a s) eqn:E.
  - destruct (Ascii.eqb c a); simpl; [reflexivity | now rewrite Hc].
  - simpl in *. now rewrite Hc, IH.
Qed.

Lemma lstrip_no_leading (s : string) :
  Text.next_is is_a (Text.lstrip a s) = false.
Proof.
  induction s as [|c s IH]; simpl; [reflexivity|].
  destruct (Ascii.eqb c a) eqn:E; [assumption|]. simpl. exact E.
Qed.

Lemma rstrip_next_is (s : string) :
  Text.next_is is_a s = false -> Text.next_is is_a (Text.rstrip a s) = false.
Proof.
  destruct s as [|c s]; simpl; [auto|].
  intros Hc. destruct (Text.rstrip a s); [now rewrite Hc | exact Hc].
Qed.

Lemma rstrip_no_trailing (s : string) :
  last_is is_a (Text.rstrip a s) = false.
Proof.
  induction s as [|c s IH]; simpl; [reflexivity|].
  destruct (Text.rstrip a s) as [|d r] eqn:E.
  - destruct (Ascii.eqb c a) eqn:Ec; simpl; [reflexivity | exact Ec].
  - exact IH.
Qed.

Lemma lstrip_no_double (s : string) :
  no_double a s = true -> no_double a (Text.lstrip a s) = true.
Proof.
  induction s as [|c s IH]; simpl; [auto|].
  intros H. apply andb_true_iff in H as [Hc Hs].
  destruct (Ascii.eqb c a) eqn:E; [auto|].
  simpl. now rewrite E, Hs.
Qed.

Lemma rstrip_next_is_inv (s : string) :
  Text.next_is is_a (Text.rstrip a s) = true -> Text.next_is is_a s = true.
Proof.
  destruct s as [|c s]; simpl; [auto|].
  destruct (Text.rstrip a s); [|auto].
  destruct (Ascii.eqb c a) eqn:E; simpl; [discriminate|].
  rewrite E. discriminate.
Qed.

Lemma rstrip_no_double (s : string) :
  no_double a s = true -> no_double a (Text.rstrip a s) = true.
Proof.
  induction s as [|c s IH]; simpl; [auto|].
  intros H. apply andb_true_iff in H as [Hc Hs].
  specialize (IH Hs).
  pose proof (rstrip_next_is_inv s) as Hinv.
  destruct (Text.rstrip a s) as [|d r] eqn:E.
  - destruct (Ascii.eqb c a); simpl; [reflexivity|].
    now rewrite andb_false_r.
  - change (negb (Ascii.eqb c a && Text.next_is is_a (String d r))
            && no_double a (String d r) = true).
    rewrite IH, andb_true_r.
    destruct (Ascii.eqb c a); [|reflexivity].
    destruct (Text.next_is is_a (String d r)) eqn:En; [|reflexivity].
    rewrite (Hinv eq_refl) in Hc. discriminate.
Qed.

Lemma lstrip_fixed (s : string) :
  Text.next_is is_a s = false -> Text.lstrip a s = s.
Proof. destruct s as [|c s]; simpl; [auto|]. now intros ->. Qed.

Lemma rstrip_fixed (s : string) :
  last_is is_a s = false -> Text.rstrip a s = s.
Proof.
  induction s as [|c s IH]; simpl; [auto|].
  destruct s as [|d r].
  - simpl. now intros ->.
  - intros H. rewrite (IH H). reflexivity.
Qed.

End ShapeFacts.

Lemma lower_forallb_safe (s : string) :
  Text.forallb (fun c => Text.is_alnum c || Ascii.eqb c "_") s = true ->
  Text.forallb safe_char (Text.lower s) = true.
Proof.
  induction s as [|c s IH]; simpl; [auto|].
  intros H. apply andb_true_iff in H as [Hc Hs].
  now rewrite (lower_char_safe c Hc), IH.
Qed.

Lemma lower_next_is_underscore (s : string) :
  Text.next_is (fun d => Ascii.eqb d "_") (Text.lower s)
  = Text.next_is (fun d => Ascii.eqb d "_") s.
Proof. destruct s; simpl; [reflexivity | apply lower_char_underscore]. Qed.

Lemma lower_last_is_underscore (s : string) :
  last_is (fun d => Ascii.eqb d "_") (Text.lower s)
  = last_is (fun d => Ascii.eqb d "_") s.
Proof.
  induction s as [|c s IH]; [reflexivity|].
  destruct s as [|d r]; [apply lower_char_underscore | exact IH].
Qed.

Lemma lower_no_double_underscore (s : string) :
  no_double "_" (Text.lower s) = no_double "_" s.
Proof.
  induction s as [|c s IH]; [reflexivity|].
  cbn [Text.lower no_double].
  now rewrite IH, lower_char_underscore, lower_next_is_underscore.
Qed.

Lemma lower_fixed (s : string) :
  Text.forallb safe_char s = true -> Text.lower s = s.
Proof.
  induction s as [|c s IH]; simpl; [auto|].
  intros H. apply andb_true_iff in H as [Hc Hs].
  now rewrite (lower_char_fixed c Hc), IH.
Qed.

Local Abbreviation non_alnum := (fun c : ascii => negb (Text.is_alnum c)).

Lemma sub_runs_chars (in_run : bool) (s : string) :
  Text.forallb (fun c => Text.is_alnum c || Ascii.eqb c "_")
    (Text.sub_runs non_alnum "_" in_run s) = true.
Proof.
  revert in_run.
  induction s as [|c s IH]; intros in_run; simpl; [reflexivity|].
  destruct (Text.is_alnum c) eqn:E; simpl.
  - now rewrite E, IH.
  - destruct in_run; simpl; apply IH.
Qed.

Lemma sub_runs_in_run_head (s : string) :
  Text.next_is (fun d => Ascii.eqb d "_") (Text.sub_runs non_alnum "_" true s)
  = false.
Proof.
  induction s as [|c s IH]; simpl; [reflexivity|].
  destruct (Text.is_alnum c) eqn:E; simpl; [|exact IH].
  now apply alnum_not_underscore.
Qed.

Lemma sub_runs_no_double (in_run : bool) (s : string) :
  no_double "_" (Text.sub_runs non_alnum "_" in_run s) = true.
Proof.
  revert in_run.
  induction s as [|c s IH]; intros in_run; simpl; [reflexivity|].
  destruct (Text.is_alnum c) eqn:E; simpl.
  - now rewrite (alnum_not_underscore c E), IH.
  - destruct in_run; simpl; [apply IH|].
    now rewrite sub_runs_in_run_head, IH.
Qed.

(** A string of the normalized shape has no run to replace. *)
Lemma sub_runs_fixed (in_run : bool) (s : string) :
  (in_run = true -> Text.next_is (fun d => Ascii.eqb d "_") s = false) ->
  Text.forallb safe_char s = true ->
  no_double "_" s = true ->
  Text.sub_runs non_alnum "_" in_run s = s.
Proof.
  revert in_run.
  induction s as [|c s IH]; intros in_run Hhead Hsafe Hnd; [reflexivity|].
  cbn [Text.forallb no_double] in Hsafe, Hnd.
  apply andb_true_iff in Hsafe as [Hc Hs].
  apply andb_true_iff in Hnd as [Hcc Hnd].
  cbn [Text.sub_runs]. rewrite (safe_char_alnum c Hc).
  destruct (Ascii.eqb_spec c "_") as [-> | Hne]; cbn [negb].
  - destruct in_run.
    + specialize (Hhead eq_refl). discriminate Hhead.
    + simpl in Hcc. apply negb_true_iff in Hcc.
      rewrite (IH true); auto.
  - rewrite (IH false); auto. discriminate.
Qed.

(** [to_safe_id] gives every value the normalized shape. *)
Lemma to_safe_id_has_shape (value : option string) :
  safe_id_shape (to_safe_id value).
Proof.
  unfold to_safe_id, safe_id_shape, Text.strip.
  set (s := Text.sub_runs non_alnum "_" false (or_default value "")).
  repeat split.
  - apply lower_forallb_safe, rstrip_forallb, lstrip_forallb, sub_runs_chars.
  - rewrite lower_next_is_underscore.
    apply rstrip_next_is, lstrip_no_leading.
  - rewrite lower_last_is_underscore. apply rstrip_no_trailing.
  - rewrite lower_no_double_underscore.
    apply rstrip_no_double, lstrip_no_double, sub_runs_no_double.
Qed.

(** X1. Whatever the value, [to_safe_id] returns a string of lower-case
    letters, digits and underscores that neither starts nor ends with an
    underscore and has no two underscores in a row. *)
Theorem to_safe_id_shape (value : option string) :
  Text.forallb safe_char (to_safe_id value) = true
  /\ Text.next_is (fun d => Ascii.eqb d "_") (to_safe_id value) = false
  /\ last_is (fun d => Ascii.eqb d "_") (to_safe_id value) = false
  /\ no_double "_" (to_safe_id value) = true.
Proof.
  destruct (to_safe_id_has_shape value) as (Hchars & Hfirst & Hlast & Hdouble).
  repeat split; assumption.
Qed.

Lemma to_safe_id_fixed (s : string) :
  safe_id_shape s -> to_safe_id (Some s) = s.
Proof.
  intros (Hsafe & Hhead & Hlast & Hnd).
  unfold to_safe_id, Text.strip.
  replace (or_default (Some s) "") with s by (now destruct s).
  rewrite sub_runs_fixed by (auto; discriminate).
  rewrite lstrip_fixed, rstrip_fixed by assumption.
  now apply lower_fixed.
Qed.

(** X2. Normalization is idempotent: a normalized identifier is left as it
    is. *)
Theorem to_safe_id_idempotent (value : option string) :
  to_safe_id (Some (to_safe_id value)) = to_safe_id value.
Proof. apply to_safe_id_fixed, to_safe_id_has_shape. Qed.

Lemma forallb_impl (p q : ascii -> bool) (s : string) :
  (forall c, p c = true -> q c = true) ->
  Text.forallb p s = true -> Text.forallb q s = true.
Proof.
  intros Hpq. induction s as [|c s IH]; simpl; [auto|].
  intros H. apply andb_true_iff in H as [Hc Hs].
  now rewrite (Hpq c Hc), IH.
Qed.

(** The runs of a class found in a string are made of characters of the
    string. *)
Lemma runs_forallb (cls q : ascii -> bool) (s cur : string) :
  Text.forallb (fun c => cls c && q c) cur = true ->
  Text.forallb q s = true ->
  Forall (fun r => Text.forallb (fun c => cls c && q c) r = true)
         (Text.runs cls cur s).
Proof.
  revert cur.
  induction s as [|c s IH]; simpl; intros cur Hcur Hs.
  - destruct cur; simpl; repeat constructor; assumption.
  - apply andb_true_iff in Hs as [Hc Hs].
    destruct (cls c) eqn:E.
    + apply IH; [|assumption].
      rewrite forallb_append, Hcur. simpl. now rewrite E, Hc.
    + destruct cur; simpl; [now apply IH|].
      constructor; [assumption | now apply IH].
Qed.

Lemma concat_forallb (q : ascii -> bool) (sep : string) (parts : list string) :
  Text.forallb q sep = true ->
  Forall (fun r => Text.forallb q r = true) parts ->
  Text.forallb q (String.concat sep parts) = true.
Proof.
  intros Hsep Hparts.
  induction Hparts as [|r parts Hr Hparts IH]; [reflexivity|].
  destruct parts as [|r' parts]; [exact Hr|].
  change (Text.forallb q (r ++ sep ++ String.concat sep (r' :: parts)) = true).
  now rewrite !forallb_append, Hr, Hsep, IH.
Qed.

Lemma replace_char_forallb (s : string) :
  Text.forallb (fun c => negb (Ascii.eqb c "-")) (Text.replace_char "-" " " s)
  = true.
Proof.
  induction s as [|c s IH]; simpl; [reflexivity|].
  rewrite IH, andb_true_r.
  destruct (Ascii.eqb c "-") eqn:E; [reflexivity | now rewrite E].
Qed.

Lemma mark_runs_forallb (cls q : ascii -> bool) (pre : string) (in_run : bool)
      (s : string) :
  Text.forallb q pre = true ->
  Text.forallb q s = true ->
  Text.forallb q (Text.mark_runs cls pre in_run s) = true.
Proof.
  intros Hpre. revert in_run.
  induction s as [|c s IH]; intros in_run; simpl; [auto|].
  intros H. apply andb_true_iff in H as [Hc Hs].
  destruct (cls c); [destruct in_run|]; simpl;
    rewrite ?forallb_append, ?Hpre; simpl; now rewrite Hc, IH.
Qed.

Lemma mark_capitalised_forallb (q : ascii -> bool) (pre : string)
      (in_match : bool) (s : string) :
  Text.forallb q pre = true ->
  Text.forallb q s = true ->
  Text.forallb q (Text.mark_capitalised pre in_match s) = true.
Proof.
  intros Hpre. revert in_match.
  induction s as [|c s IH]; intros in_match; simpl; [auto|].
  intros H. apply andb_true_iff in H as [Hc Hs].
  destruct (in_match && Text.is_lower c); simpl; [now rewrite Hc, IH|].
  destruct (Text.is_upper c && Text.next_is Text.is_lower s); simpl;
    rewrite ?forallb_append, ?Hpre; simpl; now rewrite Hc, IH.
Qed.

Lemma lower_forallb_plain (s : string) :
  Text.forallb (fun c => negb (Text.is_space c) && negb (Ascii.eqb c "-")) s
  = true ->
  Text.forallb plain_char (Text.lower s) = true.
Proof.
  induction s as [|c s IH]; simpl; [auto|].
  intros H. apply andb_true_iff in H as [Hc Hs].
  now rewrite (lower_char_plain c Hc), IH.
Qed.

(** The snake-case form of a name has no upper-case letter, no white space
    and no hyphen. *)
Lemma to_snake_case_plain (name : string) :
  Text.forallb plain_char (to_snake_case name) = true.
Proof.
  unfold to_snake_case, Text.join, Text.split, Text.findall.
  apply lower_forallb_plain, concat_forallb; [reflexivity|].
  apply runs_forallb; [reflexivity|].
  apply mark_capitalised_forallb; [reflexivity|].
  apply mark_runs_forallb; [reflexivity|].
  apply replace_char_forallb.
Qed.

(** X3. An alias never holds an upper-case letter, a white-space character
    or a hyphen, whatever the model name and the serial number. *)
Theorem build_disk_alias_plain (model_id serial_number : option string) :
  Text.forallb plain_char (build_disk_alias model_id serial_number) = true.
Proof.
  unfold build_disk_alias, serial_suffix.
  rewrite !forallb_append, to_snake_case_plain. simpl.
  destruct (truthy_str serial_number); [|reflexivity].
  apply (forallb_impl safe_char); [apply safe_char_plain|].
  apply to_safe_id_has_shape.
Qed.

(* ------------------------------------------------------------------ *)
(** ** The two versions of the coercion                                  *)
(* ------------------------------------------------------------------ *)

Lemma runs_some (cls : ascii -> bool) (s cur : string) :
  Text.existsb cls s = true -> Text.runs cls cur s <> [].
Proof.
  revert cur.
  induction s as [|c s IH]; simpl; intros cur H; [discriminate|].
  destruct (cls c) eqn:E.
  - clear IH H. revert cur.
    assert (Hne : forall t cur', cur' <> "" -> Text.runs cls cur' t <> []).
    { induction t as [|d t IHt]; simpl; intros cur' Hcur.
      - destruct cur'; [congruence | discriminate].
      - destruct (cls d).
        + apply IHt. destruct cur'; discriminate.
        + destruct cur'; [congruence | discriminate]. }
    intros cur. apply Hne. destruct cur; discriminate.
  - simpl in H. destruct cur; simpl; [now apply IH | discriminate].
Qed.

(** X4. The earlier [to_number] raises [IndexError] exactly on the values
    without a digit; everywhere else the two versions return the same
    digits, and where the earlier one raises the present one returns
    ["0"]. *)
Theorem to_number_versions (value : string) :
  (Text.existsb Text.is_digit value = true ->
   Legacy.to_number value = Ok (to_number value))
  /\ (Text.existsb Text.is_digit value = false ->
      Legacy.to_number value = Raise IndexError /\ to_number value = "0").
Proof.
  unfold Legacy.to_number, to_number, Text.findall. split.
  - intros H. apply (runs_some _ _ "") in H.
    now destruct (Text.runs Text.is_digit "" value).
  - intros H. now rewrite runs_none.
Qed.

Lemma to_number_versions_witness :
  Legacy.to_number "More than 1000 days" = Ok (to_number "More than 1000 days")
  /\ Legacy.to_number "N/A" = Raise IndexError /\ to_number "N/A" = "0".
Proof.
  split.
  - apply (proj1 (to_number_versions "More than 1000 days")). reflexivity.
  - apply (proj2 (to_number_versions "N/A")). reflexivity.
Defined.

(* ------------------------------------------------------------------ *)
(** ** Discovery payloads                                                *)
(* ------------------------------------------------------------------ *)

Section UpdateFacts.

Context {V : Type}.
Implicit Types (d o : Dict.t V) (k : string).

Lemma update_preserves (P : string * V -> Prop) d o :
  Forall P d -> Forall P o -> Forall P (Dict.update d o).
Proof.
  unfold Dict.update. intros Hd Ho. revert d Hd.
  induction Ho as [|[k v] o Hkv Ho IH]; simpl; intros d Hd; [assumption|].
  apply IH. now apply set_preserves.
Qed.

Lemma get_not_in_keys k d : ~ In k (Dict.keys d) -> Dict.get k d = None.
Proof.
  intros H. destruct (Dict.get k d) as [v|] eqn:E; [|reflexivity].
  exfalso. apply H, get_in_keys. eauto.
Qed.

(** [d.update(o)]: the entries of [o] win, the other keys keep their
    value. *)
Lemma get_update k d o :
  NoDup (Dict.keys o) ->
  Dict.get k (Dict.update d o)
  = match Dict.get k o with
    | Some v => Some v
    | None => Dict.get k d
    end.
Proof.
  unfold Dict.update. intros Hnd. revert d.
  induction o as [|[k0 v0] o IH]; simpl; intros d; [reflexivity|].
  inversion Hnd as [|? ? Hnotin Hnd']; subst.
  rewrite (IH Hnd').
  destruct (String.eqb_spec k0 k) as [-> | Hne].
  - rewrite (get_not_in_keys k o Hnotin). apply get_set_same.
  - now rewrite get_set_other.
Qed.

(** [d.update(o)] leaves the keys that [o] does not have as they are. *)
Lemma get_update_absent k d o :
  ~ In k (Dict.keys o) -> Dict.get k (Dict.update d o) = Dict.get k d.
Proof.
  unfold Dict.update. revert d.
  induction o as [|[k0 v0] o IH]; simpl; intros d Hnotin; [reflexivity|].
  rewrite IH by tauto.
  apply get_set_other. tauto.
Qed.

End UpdateFacts.

Section DescriptorFacts.

Variables (serial_no alias_ : string) (model firmware : json).
Variables (mqtt_state_topic availability_topic : string).
Variable update_interval : Z.

Local Abbreviation descriptor :=
  (get_device_descriptor serial_no alias_ model firmware mqtt_state_topic
     availability_topic update_interval).
Local Abbreviation descriptor_for :=
  (descriptor_of serial_no alias_ model firmware mqtt_state_topic
     availability_topic update_interval).
Local Abbreviation init :=
  (Config_init serial_no alias_ model firmware mqtt_state_topic
     availability_topic update_interval).

Lemma Config_init_sensors (raw : raw_config) (config : Config) :
  init (Ok raw) = Ok config ->
  sensors config
  = map (fun e => descriptor_for (fst e) (snd e))
        (expansion_order raw SENSOR_TYPES).
Proof.
  unfold Config_init. cbn [bind].
  destruct (expand_kinds _ _ _ _ _ _ _ raw SENSOR_TYPES ([], []))
    as [acc|e] eqn:E; cbn [bind]; [|discriminate].
  intros Hc. injection Hc as <-. cbn [sensors].
  now apply expand_kinds_sensors in E.
Qed.

(** X5. In a discovery payload the options of the template replace the
    generated fields of the same name, and every field the template does
    not mention keeps its generated value. *)
Theorem descriptor_options_override
        (sensor_type name : string) (query_key : json) (config : Dict.t json)
        (k : string) :
  NoDup (Dict.keys config) ->
  Dict.get k (fields_of (descriptor sensor_type name query_key config))
  = match Dict.get k config with
    | Some v => Some v
    | None => Dict.get k (fields_of (descriptor sensor_type name query_key []))
    end.
Proof.
  intros Hnd. unfold get_device_descriptor, fields_of. cbn [payload].
  now rewrite get_update.
Qed.

(** X6. The options of a template that start with an underscore ([_key],
    [_type]) steer the expansion and never reach a discovery payload: no
    field of a payload of a configuration has a name that starts with an
    underscore. *)
Theorem internal_options_never_published (raw : raw_config) (config : Config) :
  init (Ok raw) = Ok config ->
  Forall (fun sensor =>
            Forall (fun kv => Text.startswith "_" (fst kv) = false)
                   (fields_of sensor))
         (sensors config).
Proof.
  intros H. rewrite (Config_init_sensors raw config H).
  apply Forall_map, Forall_forall. intros [kind [name t]] _.
  unfold descriptor_of, get_device_descriptor, fields_of.
  cbn [payload fst snd].
  apply update_preserves.
  - repeat constructor.
  - unfold pop_internal_config. cbn [snd].
    apply Forall_forall. intros kv Hin.
    apply filter_In in Hin as [_ Hkv].
    now apply negb_true_iff.
Qed.

Lemma expansion_order_length (raw : raw_config) (kinds : list string) :
  length (expansion_order raw kinds)
  = list_sum (map (fun kind => length (raw_sensors raw kind)) kinds).
Proof.
  unfold expansion_order.
  induction kinds as [|kind kinds IH]; simpl; [reflexivity|].
  rewrite length_app, length_map, IH.
  f_equal. symmetry. apply Permutation_length, sorted_items_perm.
Qed.

(** X7. A configuration holds one descriptor for every template of the
    sections [binary_sensor] and [sensor], and depends on nothing else of
    the template file: sections of other kinds are ignored. *)
Theorem one_descriptor_per_template (raw raw' : raw_config) :
  (forall config,
      init (Ok raw) = Ok config ->
      length (sensors config)
      = length (raw_sensors raw "binary_sensor")
        + length (raw_sensors raw "sensor"))
  /\ (raw_sensors raw "binary_sensor" = raw_sensors raw' "binary_sensor" ->
      raw_sensors raw "sensor" = raw_sensors raw' "sensor" ->
      init (Ok raw) = init (Ok raw')).
Proof.
  split.
  - intros config H.
    rewrite (Config_init_sensors raw config H), length_map,
      expansion_order_length.
    simpl. lia.
  - intros Hb Hs. unfold Config_init, SENSOR_TYPES. cbn [bind expand_kinds].
    now rewrite Hb, Hs.
Qed.

Lemma expand_templates_fails (sensor_type : string)
      (items : list (string * template)) (item : string * template) :
  In item items ->
  (forall acc, exists e,
      expand_template serial_no alias_ model firmware mqtt_state_topic
        availability_topic update_interval sensor_type acc item = Raise e) ->
  forall acc, exists e,
    expand_templates serial_no alias_ model firmware mqtt_state_topic
      availability_topic update_interval sensor_type items acc = Raise e.
Proof.
  intros Hin Hfail.
  induction items as [|item0 items IH]; [contradiction|].
  intros acc. cbn [expand_templates].
  destruct Hin as [-> | Hin].
  - destruct (Hfail acc) as [e ->]. cbn. eauto.
  - destruct (expand_template _ _ _ _ _ _ _ _ _ item0) as [acc'|e];
      cbn; [apply IH; assumption | eauto].
Qed.

Lemma expand_kinds_fails (raw : raw_config) (kinds : list string)
      (kind : string) (item : string * template) :
  In kind kinds ->
  In item (raw_sensors raw kind) ->
  (forall acc, exists e,
      expand_template serial_no alias_ model firmware mqtt_state_topic
        availability_topic update_interval kind acc item = Raise e) ->
  forall acc, exists e,
    expand_kinds serial_no alias_ model firmware mqtt_state_topic
      availability_topic update_interval raw kinds acc = Raise e.
Proof.
  intros Hkind Hitem Hfail.
  induction kinds as [|kind0 kinds IH]; [contradiction|].
  intros acc. cbn [expand_kinds].
  destruct Hkind as [-> | Hkind].
  - destruct (expand_templates_fails kind
                (sorted_items (raw_sensors raw kind)) item) with (acc := acc)
      as [e ->]; [|assumption|cbn; eauto].
    eapply Permutation_in; [apply sorted_items_perm | assumption].
  - destruct (expand_templates _ _ _ _ _ _ _ kind0 _ acc) as [acc'|e];
      cbn; [apply IH; assumption | eauto].
Qed.

(** X8. One template whose [_type] is none of [float], [int] and [str]
    makes the whole configuration fail: [Config] raises, whatever the other
    templates are, and no descriptor is built for the disk. *)
Theorem bad_type_fails_config
        (raw : raw_config) (kind : string) (item : string * template)
        (e : exn) :
  In kind SENSOR_TYPES ->
  In item (raw_sensors raw kind) ->
  resolve_type (fst (pop_internal_config (template_body (snd item)))) = Raise e ->
  exists e', init (Ok raw) = Raise e'.
Proof.
  intros Hkind Hitem Htype.
  destruct (expand_kinds_fails raw SENSOR_TYPES kind item Hkind Hitem)
    with (acc := (@nil (json * value_type), @nil SensorConfig)) as [e' He'].
  - intros acc. exists e. unfold expand_template.
    unfold template_body in Htype.
    destruct (pop_internal_config _) as [internal_config config].
    cbn [fst] in Htype. now rewrite Htype.
  - exists e'. unfold Config_init. cbn [bind]. now rewrite He'.
Qed.

End DescriptorFacts.

Lemma descriptor_options_override_witness :
  NoDup (Dict.keys [ ("name", JStr "Disk health");
                     ("device_class", JStr "battery") ])
  /\ Dict.get "name"
       (fields_of
          (get_device_descriptor "S4EWNF0M123456" "samsung_s4ewnf0m123456"
             (JStr "Samsung") (JStr "2B2QEXM7") "hdsentinel/x/hdsentinel"
             "hdsentinel/x/availability" 600 "sensor" "health"
             (JStr "hard_disk_health")
             [ ("name", JStr "Disk health"); ("device_class", JStr "battery") ]))
     = Some (JStr "Disk health")
  /\ Dict.get "unique_id"
       (fields_of
          (get_device_descriptor "S4EWNF0M123456" "samsung_s4ewnf0m123456"
             (JStr "Samsung") (JStr "2B2QEXM7") "hdsentinel/x/hdsentinel"
             "hdsentinel/x/availability" 600 "sensor" "health"
             (JStr "hard_disk_health")
             [ ("name", JStr "Disk health"); ("device_class", JStr "battery") ]))
     = Some (JStr "hdsentinel_S4EWNF0M123456_hard_disk_health").
Proof.
  assert (H : NoDup (Dict.keys [ ("name", JStr "Disk health");
                                 ("device_class", JStr "battery") ])).
  { repeat constructor; simpl; intuition discriminate. }
  split; [exact H|]. split.
  - exact (descriptor_options_override "S4EWNF0M123456"
             "samsung_s4ewnf0m123456" (JStr "Samsung") (JStr "2B2QEXM7")
             "hdsentinel/x/hdsentinel" "hdsentinel/x/availability" 600
             "sensor" "health" (JStr "hard_disk_health") _ "name" H).
  - exact (descriptor_options_override "S4EWNF0M123456"
             "samsung_s4ewnf0m123456" (JStr "Samsung") (JStr "2B2QEXM7")
             "hdsentinel/x/hdsentinel" "hdsentinel/x/availability" 600
             "sensor" "health" (JStr "hard_disk_health") _ "unique_id" H).
Defined.

Lemma internal_options_never_published_witness :
  sample_config = Ok health_config
  /\ Forall (fun sensor =>
               Forall (fun kv => Text.startswith "_" (fst kv) = false)
                      (fields_of sensor))
            (sensors health_config).
Proof.
  split; [reflexivity|].
  apply (internal_options_never_published
           "S4EWNF0M123456" "samsung_ssd_970_evo_plus_s4ewnf0m123456"
           (JStr "Samsung SSD 970 EVO Plus 1TB") (JStr "2B2QEXM7")
           "hdsentinel/samsung_ssd_970_evo_plus_s4ewnf0m123456/hdsentinel"
           "hdsentinel/samsung_ssd_970_evo_plus_s4ewnf0m123456/availability"
           600 templates_a health_config).
  reflexivity.
Defined.

Lemma one_descriptor_per_template_witness :
  length (sensors health_config) = 2
  /\ Config_init "S4EWNF0M123456" "a" JNull JNull "s" "t" 600
       (Ok (("switch", Some [ health_template ]) :: templates_a))
     = Config_init "S4EWNF0M123456" "a" JNull JNull "s" "t" 600 (Ok templates_a).
Proof.
  split.
  - apply (proj1 (one_descriptor_per_template
             "S4EWNF0M123456" "samsung_ssd_970_evo_plus_s4ewnf0m123456"
             (JStr "Samsung SSD 970 EVO Plus 1TB") (JStr "2B2QEXM7")
             "hdsentinel/samsung_ssd_970_evo_plus_s4ewnf0m123456/hdsentinel"
             "hdsentinel/samsung_ssd_970_evo_plus_s4ewnf0m123456/availability"
             600 templates_a templates_a) health_config).
    reflexivity.
  - apply (proj2 (one_descriptor_per_template
             "S4EWNF0M123456" "a" JNull JNull "s" "t" 600
             (("switch", Some [ health_template ]) :: templates_a)
             templates_a)); reflexivity.
Defined.

Lemma bad_type_fails_config_witness :
  exists e,
    Config_init "S4EWNF0M123456" "a" JNull JNull "s" "t" 600 (Ok templates_bad)
    = Raise e.
Proof.
  apply (bad_type_fails_config "S4EWNF0M123456" "a" JNull JNull "s" "t" 600
           templates_bad "sensor"
           ("temperature", Some [ ("_type", JStr "integer") ]) KeyError).
  - simpl. auto.
  - simpl. auto.
  - reflexivity.
Defined.

(* ------------------------------------------------------------------ *)
(** ** Reports that name a serial number twice                           *)
(* ------------------------------------------------------------------ *)

Lemma set_nodup {V : Type} (k : string) (v : V) (d : Dict.t V) :
  NoDup (Dict.keys d) -> NoDup (Dict.keys (Dict.set k v d)).
Proof.
  induction d as [|[k0 v0] d IH]; simpl; intros H.
  - repeat constructor. auto.
  - inversion H as [|? ? Hnotin Hnd]; subst.
    destruct (String.eqb_spec k0 k) as [-> | Hne]; simpl.
    + now constructor.
    + constructor; [|auto].
      change (~ In k0 (Dict.keys (Dict.set k v d))).
      rewrite keys_set. intuition.
Qed.

Lemma add_summary_nodup (acc : snapshot) (summary : result xval) :
  NoDup (Dict.keys acc) -> NoDup (Dict.keys (add_summary acc summary)).
Proof.
  intros H. unfold add_summary.
  destruct summary as [[| | |fields]|]; try assumption.
  destruct (Dict.get _ fields) as [[|s| |]|]; try assumption.
  destruct (Text.is_empty s); [assumption | now apply set_nodup].
Qed.

Lemma add_summary_other (serial : string) (acc : snapshot)
      (summary : result xval) :
  ~ names_serial serial summary ->
  Dict.get serial (add_summary acc summary) = Dict.get serial acc.
Proof.
  unfold names_serial, add_summary. intros H.
  destruct summary as [[| | |fields]|]; try reflexivity.
  destruct (Dict.get _ fields) as [[|s| |]|]; try reflexivity.
  destruct (Text.is_empty s); [reflexivity|].
  apply get_set_other. congruence.
Qed.

Lemma fold_add_summary_facts (serial : string) (post : list (result xval))
      (acc : snapshot) :
  NoDup (Dict.keys acc) ->
  Forall (fun s => ~ names_serial serial s) post ->
  NoDup (Dict.keys (fold_left add_summary post acc))
  /\ Dict.get serial (fold_left add_summary post acc) = Dict.get serial acc.
Proof.
  intros Hnd Hpost. revert acc Hnd.
  induction Hpost as [|s post Hs Hpost IH]; simpl; intros acc Hnd; [auto|].
  destruct (IH (add_summary acc s) (add_summary_nodup acc s Hnd)) as [H1 H2].
  split; [assumption|]. now rewrite H2, add_summary_other.
Qed.

Lemma fold_add_summary_nodup (l : list (result xval)) (acc : snapshot) :
  NoDup (Dict.keys acc) -> NoDup (Dict.keys (fold_left add_summary l acc)).
Proof.
  revert acc. induction l as [|s l IH]; simpl; intros acc H; [assumption|].
  apply IH. now apply add_summary_nodup.
Qed.

(** X9. When a report names a serial number more than once, the snapshot
    holds that disk once, with the attributes of the last summary that
    names it. *)
Theorem get_disks_last_summary_wins
        (env : environment) (pre post : list (result xval))
        (fields : Dict.t xval) (serial : string) :
  xml_path_set env = true \/ run_hdsentinel env = Ok tt ->
  parse_xml env = Ok (pre ++ Ok (XDict fields) :: post)%list ->
  Dict.get "Hard_Disk_Serial_Number" fields = Some (XText serial) ->
  serial <> "" ->
  Forall (fun s => ~ names_serial serial s) post ->
  exists disks,
    get_disks env = Ok disks
    /\ Dict.get serial disks = Some fields
    /\ NoDup (Dict.keys disks).
Proof.
  intros Hrun Hparse Hserial Hne Hpost.
  exists (fold_left add_summary (pre ++ Ok (XDict fields) :: post)%list []).
  split.
  { unfold get_disks, parse_disks.
    destruct Hrun as [-> | ->]; [|destruct (xml_path_set env)];
      now rewrite Hparse. }
  rewrite fold_left_app. cbn [fold_left].
  set (acc := fold_left add_summary pre []).
  assert (Hacc : NoDup (Dict.keys acc))
    by (apply fold_add_summary_nodup; constructor).
  destruct (fold_add_summary_facts serial post
              (add_summary acc (Ok (XDict fields)))
              (add_summary_nodup _ _ Hacc) Hpost) as [Hnd Hget].
  split; [|assumption].
  rewrite Hget. unfold add_summary. rewrite Hserial.
  destruct serial; [congruence|]. apply get_set_same.
Qed.

Lemma get_disks_last_summary_wins_witness :
  exists disks,
    get_disks
      {| xml_path_set := true;
         run_hdsentinel := Ok tt;
         parse_xml :=
           Ok [ Ok (XDict [ ("Hard_Disk_Serial_Number", XText "S1");
                            ("Temperature", XText "38") ]);
                Ok (XDict [ ("Hard_Disk_Serial_Number", XText "S1");
                            ("Temperature", XText "42") ]);
                Ok (XDict [ ("Hard_Disk_Serial_Number", XText "S2") ]) ] |}
    = Ok disks
    /\ Dict.get "S1" disks
       = Some [ ("Hard_Disk_Serial_Number", XText "S1");
                ("Temperature", XText "42") ]
    /\ NoDup (Dict.keys disks).
Proof.
  apply (get_disks_last_summary_wins
           {| xml_path_set := true;
              run_hdsentinel := Ok tt;
              parse_xml :=
                Ok [ Ok (XDict [ ("Hard_Disk_Serial_Number", XText "S1");
                                 ("Temperature", XText "38") ]);
                     Ok (XDict [ ("Hard_Disk_Serial_Number", XText "S1");
                                 ("Temperature", XText "42") ]);
                     Ok (XDict [ ("Hard_Disk_Serial_Number", XText "S2") ]) ] |}
           [ Ok (XDict [ ("Hard_Disk_Serial_Number", XText "S1");
                         ("Temperature", XText "38") ]) ]
           [ Ok (XDict [ ("Hard_Disk_Serial_Number", XText "S2") ]) ]
           [ ("Hard_Disk_Serial_Number", XText "S1"); ("Temperature", XText "42") ]
           "S1").
  - left. reflexivity.
  - reflexivity.
  - reflexivity.
  - discriminate.
  - repeat constructor. simpl. discriminate.
Defined.

(* ------------------------------------------------------------------ *)
(** ** The disks of a run are fixed at Bootstrapping                     *)
(* ------------------------------------------------------------------ *)

Lemma keys_set_existing {V : Type} (k : string) (v : V) (d : Dict.t V) :
  In k (Dict.keys d) -> Dict.keys (Dict.set k v d) = Dict.keys d.
Proof.
  induction d as [|[k0 v0] d IH]; simpl; [contradiction|].
  intros H. destruct (String.eqb_spec k0 k) as [-> | Hne]; simpl.
  - reflexivity.
  - f_equal. apply IH. intuition.
Qed.

Section FixedDisks.

Variable net : nat -> bool.
Variable mqtt_topic : string.
Variable config_yml : result raw_config.
Variable update_interval : Z.

Lemma setup_disk_covers (w : World) (disk : string * Dict.t xval) :
  clients_cover_configs w ->
  clients_cover_configs
    (setup_disk net mqtt_topic config_yml update_interval w disk).
Proof.
  unfold clients_cover_configs, incl. intros H.
  destruct disk as [k values]. unfold setup_disk.
  destruct (model_argument _) as [model_id|e]; [|assumption].
  destruct (Config_init _ _ _ _ _ _ _ _) as [config|e];
    cbn [configs mqtt_clients]; intros x Hx.
  - apply keys_set. apply keys_set in Hx. intuition.
  - apply keys_set. auto.
Qed.

Lemma bootstrap_covers (first : snapshot) :
  clients_cover_configs
    (bootstrap net mqtt_topic config_yml update_interval first).
Proof.
  unfold bootstrap.
  assert (H : clients_cover_configs empty_world) by (intros x []).
  revert H. generalize empty_world.
  induction first as [|disk first IH]; simpl; intros w Hw; [assumption|].
  apply IH. now apply setup_disk_covers.
Qed.

Lemma process_disk_keys (w : World) (disk : string * Dict.t xval) :
  clients_cover_configs w ->
  Dict.keys (mqtt_clients (process_disk net mqtt_topic w disk))
  = Dict.keys (mqtt_clients w)
  /\ configs (process_disk net mqtt_topic w disk) = configs w.
Proof.
  intros Hcover. destruct disk as [k values]. unfold process_disk.
  destruct (Dict.get k (configs w)) as [config|] eqn:Hcfg; [|auto].
  assert (Hin : In k (Dict.keys (mqtt_clients w))).
  { apply Hcover, get_in_keys. eauto. }
  destruct (proj1 (get_in_keys k _) Hin) as [c Hc]. rewrite Hc.
  destruct (main_loop _ _ _ _ _ _ _) as [c' w'].
  cbn [mqtt_clients configs]. split; [|reflexivity].
  now apply keys_set_existing.
Qed.

Lemma steady_cycle_keys (disks : snapshot) (w : World) :
  clients_cover_configs w ->
  Dict.keys (mqtt_clients (steady_cycle net mqtt_topic w disks))
  = Dict.keys (mqtt_clients w)
  /\ configs (steady_cycle net mqtt_topic w disks) = configs w.
Proof.
  unfold steady_cycle. revert w.
  induction disks as [|disk disks IH]; simpl; intros w Hcover; [auto|].
  destruct (process_disk_keys w disk Hcover) as [Hk Hc].
  destruct (IH (process_disk net mqtt_topic w disk)) as [Hk' Hc'].
  { unfold clients_cover_configs. now rewrite Hk, Hc. }
  split; congruence.
Qed.

Lemma steady_cycles_keys (polls : list snapshot) (w : World) :
  clients_cover_configs w ->
  Dict.keys (mqtt_clients (steady_cycles net mqtt_topic w polls))
  = Dict.keys (mqtt_clients w)
  /\ configs (steady_cycles net mqtt_topic w polls) = configs w.
Proof.
  unfold steady_cycles. revert w.
  induction polls as [|disks polls IH]; simpl; intros w Hcover; [auto|].
  destruct (steady_cycle_keys disks w Hcover) as [Hk Hc].
  destruct (IH (steady_cycle net mqtt_topic w disks)) as [Hk' Hc'].
  { unfold clients_cover_configs. now rewrite Hk, Hc. }
  split; congruence.
Qed.

(** X10. The disks of a run are those of Bootstrapping: the Steady cycles
    never add or drop a client or a configuration, and every configured
    disk has a client (so a cycle never has to create one). *)
Theorem steady_keeps_the_disks (first : snapshot) (polls : list snapshot) :
  let boot := bootstrap net mqtt_topic config_yml update_interval first in
  let w := steady_cycles net mqtt_topic boot polls in
  Dict.keys (mqtt_clients w) = Dict.keys (mqtt_clients boot)
  /\ configs w = configs boot
  /\ incl (Dict.keys (configs w)) (Dict.keys (mqtt_clients w))
  /\ incl (Dict.keys (mqtt_clients boot)) (Dict.keys first).
Proof.
  intros boot w.
  destruct (steady_cycles_keys polls boot (bootstrap_covers first)) as [Hk Hc].
  fold w in Hk, Hc.
  split; [assumption|]. split; [assumption|]. split.
  - rewrite Hk, Hc. apply bootstrap_covers.
  - unfold boot, bootstrap.
    assert (H : forall l w0,
               incl (Dict.keys
                       (mqtt_clients
                          (fold_left
                             (setup_disk net mqtt_topic config_yml
                                update_interval) l w0)))
                    (Dict.keys (mqtt_clients w0) ++ Dict.keys l)).
    { induction l as [|[k values] l IHl]; simpl; intros w0.
      - rewrite app_nil_r. apply incl_refl.
      - intros x Hx. apply IHl in Hx. apply in_app_iff in Hx as [Hx | Hx].
        + unfold setup_disk in Hx.
          destruct (model_argument _) as [model_id|e];
            [|apply in_app_iff; auto].
          destruct (Config_init _ _ _ _ _ _ _ _); cbn [mqtt_clients] in Hx;
            apply keys_set in Hx; apply in_app_iff; simpl; intuition.
        + apply in_app_iff. simpl. auto. }
    exact (H first empty_world).
Qed.

(** A cycle, seen from a disk that is not configured. *)
Lemma steady_cycle_unregistered (disks : snapshot) (w : World) (s : string) :
  Dict.mem s (configs w) = false ->
  exists new,
    wire (steady_cycle net mqtt_topic w disks) = (wire w ++ new)%list
    /\ filter (by_client s) new = []
    /\ configs (steady_cycle net mqtt_topic w disks) = configs w
    /\ Dict.get s (mqtt_clients (steady_cycle net mqtt_topic w disks))
       = Dict.get s (mqtt_clients w).
Proof.
  unfold steady_cycle. revert w.
  induction disks as [|[k values] disks IH]; cbn [fold_left]; intros w Hreg.
  - exists []. rewrite app_nil_r. auto.
  - destruct (process_disk_effect net mqtt_topic w k values)
      as (new1 & Hw1 & Hc1 & Hall1 & Hget1 & _ & _ & Hreg1).
    destruct (IH (process_disk net mqtt_topic w (k, values)))
      as (new2 & Hw2 & Hf2 & Hc2 & Hget2); [now rewrite Hc1|].
    exists (new1 ++ new2)%list.
    rewrite Hw2, Hw1, Hc2, Hc1, Hget2, filter_app, Hf2, app_nil_r,
      <- app_assoc.
    split; [reflexivity|].
    destruct (String.eqb_spec k s) as [-> | Hks].
    + rewrite Hreg in Hreg1. destruct Hreg1 as [-> ->]. auto.
    + assert (Hs : s <> k) by congruence.
      rewrite (filter_by_other s k new1 Hs Hall1), (Hget1 s Hs). auto.
Qed.

(** X11. A disk that was not configured at Bootstrapping stays out: however
    often later snapshots report it, no cycle sends anything in its name,
    and it is never configured. *)
Theorem unregistered_disk_ignored
        (w : World) (polls : list snapshot) (serial : string) :
  ~ In serial (Dict.keys (configs w)) ->
  filter (by_client serial)
    (since (length (wire w)) (wire (steady_cycles net mqtt_topic w polls))) = []
  /\ ~ In serial (Dict.keys (configs (steady_cycles net mqtt_topic w polls)))
  /\ Dict.get serial (mqtt_clients (steady_cycles net mqtt_topic w polls))
     = Dict.get serial (mqtt_clients w).
Proof.
  intros Hnot.
  assert (Hreg : Dict.mem serial (configs w) = false).
  { destruct (Dict.mem serial (configs w)) eqn:E; [|reflexivity].
    apply mem_in_keys in E. contradiction. }
  clear Hnot.
  assert (H : exists new,
             wire (steady_cycles net mqtt_topic w polls) = (wire w ++ new)%list
             /\ filter (by_client serial) new = []
             /\ configs (steady_cycles net mqtt_topic w polls) = configs w
             /\ Dict.get serial
                  (mqtt_clients (steady_cycles net mqtt_topic w polls))
                = Dict.get serial (mqtt_clients w)).
  { unfold steady_cycles. revert w Hreg.
    induction polls as [|disks polls IH]; simpl; intros w Hreg.
    - exists []. rewrite app_nil_r. auto.
    - destruct (steady_cycle_unregistered disks w serial Hreg)
        as (new1 & Hw1 & Hf1 & Hc1 & Hg1).
      destruct (IH (steady_cycle net mqtt_topic w disks))
        as (new2 & Hw2 & Hf2 & Hc2 & Hg2); [now rewrite Hc1|].
      exists (new1 ++ new2)%list.
      rewrite Hw2, Hw1, Hc2, Hc1, Hg2, Hg1, filter_app, Hf1, Hf2,
        <- app_assoc. auto. }
  destruct H as (new & Hw & Hf & Hc & Hg).
  rewrite Hw, since_app, Hc, Hg.
  repeat split; auto.
  intros Hin. apply mem_in_keys in Hin. congruence.
Qed.

End FixedDisks.

(* ------------------------------------------------------------------ *)
(** ** What each step puts on the wire                                   *)
(* ------------------------------------------------------------------ *)

Section WireFacts.

Variable net : nat -> bool.
Variable mqtt_topic : string.
Variable config_yml : result raw_config.
Variable update_interval : Z.

Lemma publish_status_wire who status c w :
  publish_status net who status (c, w)
  = if status_eqb status (published_status c) then (c, w)
    else (set_published_status c status,
          (w ++ [ {| client_key := who;
                     request := Single (status_message c status);
                     delivered := net (length w) |} ])%list).
Proof. reflexivity. Qed.

Lemma main_loop_wire who c config values w :
  main_loop net who c (get_abs_topic c ["hdsentinel"]) config values w
  = publish_status net who "online"
      (c, (w ++ [ {| client_key := who;
                     request := Single (state_message c values);
                     delivered := net (length w) |} ])%list).
Proof. reflexivity. Qed.

Lemma publish_status_flagged who status c w :
  status = "online" \/ status = "offline" ->
  Forall (fun a => well_flagged a = true) w ->
  Forall (fun a => well_flagged a = true)
         (snd (publish_status net who status (c, w))).
Proof.
  intros Hstatus Hw. rewrite publish_status_wire.
  destruct (status_eqb status (published_status c)); [assumption|].
  apply Forall_app. split; [assumption|].
  constructor; [|constructor].
  destruct Hstatus as [-> | ->]; reflexivity.
Qed.

Lemma main_loop_flagged who c topic config values w :
  Forall (fun a => well_flagged a = true) w ->
  Forall (fun a => well_flagged a = true)
         (snd (main_loop net who c topic config values w)).
Proof.
  intros Hw. unfold main_loop, publish_online_status.
  apply publish_status_flagged; [auto|].
  unfold publish_single, transport.
  apply Forall_app. split; [assumption|]. repeat constructor.
Qed.

Lemma process_disk_flagged (w : World) (disk : string * Dict.t xval) :
  Forall (fun a => well_flagged a = true) (wire w) ->
  Forall (fun a => well_flagged a = true)
         (wire (process_disk net mqtt_topic w disk)).
Proof.
  intros Hw. destruct disk as [k values]. unfold process_disk.
  destruct (Dict.get k (configs w)) as [config|]; [|assumption].
  destruct (Dict.get k (mqtt_clients w)) as [c|].
  - pose proof (main_loop_flagged k c (get_abs_topic c ["hdsentinel"])
                  config values (wire w) Hw) as H.
    destruct (main_loop _ _ _ _ _ _ _). exact H.
  - pose proof (main_loop_flagged k
                  (new_client (mqtt_topic ++ "/" ++ alias config))
                  (get_abs_topic
                     (new_client (mqtt_topic ++ "/" ++ alias config))
                     ["hdsentinel"])
                  config values (wire w) Hw) as H.
    destruct (main_loop _ _ _ _ _ _ _). exact H.
Qed.

Lemma steady_cycles_flagged (polls : list snapshot) (w : World) :
  Forall (fun a => well_flagged a = true) (wire w) ->
  Forall (fun a => well_flagged a = true)
         (wire (steady_cycles net mqtt_topic w polls)).
Proof.
  unfold steady_cycles. revert w.
  induction polls as [|disks polls IH]; cbn [fold_left]; intros w Hw;
    [assumption|].
  apply IH. unfold steady_cycle. clear IH. revert w Hw.
  induction disks as [|disk disks IH]; cbn [fold_left]; intros w Hw;
    [assumption|].
  apply IH. now apply process_disk_flagged.
Qed.

Lemma discovery_msgs_flagged (config : Config) :
  forallb (fun m =>
             msg_retain m
             && match msg_payload m with Json _ => true | Text _ => false end)
          (discovery_msgs config) = true.
Proof.
  unfold discovery_msgs.
  induction (sensors config) as [|sensor l IH]; [reflexivity | exact IH].
Qed.

Lemma setup_disk_wire (w : World) (disk : string * Dict.t xval) :
  (wire (setup_disk net mqtt_topic config_yml update_interval w disk) = wire w
   /\ configs (setup_disk net mqtt_topic config_yml update_interval w disk)
      = configs w)
  \/ exists config,
       wire (setup_disk net mqtt_topic config_yml update_interval w disk)
       = (wire w ++ [ {| client_key := fst disk;
                         request := Multiple (discovery_msgs config);
                         delivered := net (length (wire w)) |} ])%list
       /\ configs (setup_disk net mqtt_topic config_yml update_interval w disk)
          = Dict.set (fst disk) config (configs w).
Proof.
  destruct disk as [k values]. unfold setup_disk.
  destruct (model_argument _) as [model_id|e]; [|auto].
  destruct (Config_init _ _ _ _ _ _ _ _) as [config|e]; [|auto].
  right. exists config. split; reflexivity.
Qed.

Lemma bootstrap_flagged (first : snapshot) :
  Forall (fun a => well_flagged a = true)
         (wire (bootstrap net mqtt_topic config_yml update_interval first)).
Proof.
  unfold bootstrap.
  assert (H : Forall (fun a => well_flagged a = true) (wire empty_world))
    by constructor.
  revert H. generalize empty_world.
  induction first as [|disk first IH]; cbn [fold_left]; intros w Hw;
    [assumption|].
  apply IH.
  destruct (setup_disk_wire w disk) as [[-> _] | (config & -> & _)];
    [assumption|].
  apply Forall_app. split; [assumption|].
  constructor; [|constructor].
  apply discovery_msgs_flagged.
Qed.

Lemma drain_client_wire (w : World) (k : string) :
  exists new,
    wire (drain_client net w k) = (wire w ++ new)%list
    /\ Forall (fun a => is_offline_attempt a = true
                        /\ well_flagged a = true) new.
Proof.
  unfold drain_client.
  destruct (Dict.get k (mqtt_clients w)) as [c|].
  - unfold publish_offline_status. rewrite publish_status_wire.
    destruct (status_eqb "offline" (published_status c)); cbn [wire].
    + exists []. rewrite app_nil_r. auto.
    + eexists. split; [reflexivity|]. repeat constructor.
  - exists []. rewrite app_nil_r. auto.
Qed.

Lemma drain_wire (w : World) :
  exists new,
    wire (drain net w) = (wire w ++ new)%list
    /\ Forall (fun a => is_offline_attempt a = true
                        /\ well_flagged a = true) new.
Proof.
  unfold drain. generalize (Dict.keys (mqtt_clients w)) as keys.
  intros keys. revert w.
  induction keys as [|k keys IH]; cbn [fold_left]; intros w.
  - exists []. rewrite app_nil_r. auto.
  - destruct (drain_client_wire w k) as (new1 & Hw1 & Hall1).
    destruct (IH (drain_client net w k)) as (new2 & Hw2 & Hall2).
    exists (new1 ++ new2)%list. rewrite Hw2, Hw1, <- app_assoc.
    split; [reflexivity|]. apply Forall_app. auto.
Qed.

(** X12. From the first discovery batch to the last "offline", every
    message of a run carries the retain flag of its kind: availabilities
    ("online", "offline") and discovery documents are retained, state
    documents are not. *)
Theorem run_is_well_flagged (first poll : snapshot) (polls : list snapshot) :
  Forall (fun a => well_flagged a = true)
         (wire (snd (main net mqtt_topic config_yml update_interval
                       first poll polls))).
Proof.
  unfold main. destruct first as [|disk first]; [constructor|].
  cbn [snd].
  destruct (drain_wire
              (steady_cycles net mqtt_topic
                 (bootstrap net mqtt_topic config_yml update_interval
                    (disk :: first))
                 (poll :: polls))) as (new & -> & Hnew).
  apply Forall_app. split.
  - apply steady_cycles_flagged, bootstrap_flagged.
  - eapply Forall_impl; [|exact Hnew]. now intros a [_ H].
Qed.

End WireFacts.

Section BrokenTemplates.

Variable net : nat -> bool.
Variable mqtt_topic : string.
Variable update_interval : Z.
Variable e : exn.

Lemma bootstrap_broken (first : snapshot) :
  configs (bootstrap net mqtt_topic (Raise e) update_interval first) = []
  /\ wire (bootstrap net mqtt_topic (Raise e) update_interval first) = [].
Proof.
  unfold bootstrap.
  assert (H : configs empty_world = [] /\ wire empty_world = []) by auto.
  revert H. generalize empty_world.
  induction first as [|[k values] first IH]; cbn [fold_left]; intros w Hw;
    [assumption|].
  apply IH. unfold setup_disk.
  destruct (model_argument _) as [model_id|e']; [|assumption].
  exact Hw.
Qed.

Lemma steady_cycles_without_configs (polls : list snapshot) (w : World) :
  configs w = [] -> steady_cycles net mqtt_topic w polls = w.
Proof.
  intros Hcfg. unfold steady_cycles.
  induction polls as [|disks polls IH]; cbn [fold_left]; [reflexivity|].
  assert (Hcycle : steady_cycle net mqtt_topic w disks = w).
  { unfold steady_cycle.
    induction disks as [|[k values] disks IHd]; cbn [fold_left];
      [reflexivity|].
    assert (Hstep : process_disk net mqtt_topic w (k, values) = w).
    { unfold process_disk. now rewrite Hcfg. }
    now rewrite Hstep. }
  now rewrite Hcycle.
Qed.

(** X13. When [config.yml] cannot be loaded the process does not stop:
    every disk gets a client and none a configuration, Bootstrapping and
    the Steady cycles send nothing at all, and a run ends with exit code 0
    after attempts to publish "offline" only. *)
Theorem broken_templates_publish_offline_only
        (first poll : snapshot) (polls : list snapshot) :
  let boot := bootstrap net mqtt_topic (Raise e) update_interval first in
  configs boot = []
  /\ wire boot = []
  /\ steady_cycles net mqtt_topic boot (poll :: polls) = boot
  /\ Forall (fun a => is_offline_attempt a = true)
            (wire (snd (main net mqtt_topic (Raise e) update_interval
                          first poll polls)))
  /\ (first <> [] ->
      fst (main net mqtt_topic (Raise e) update_interval first poll polls)
      = 0%Z).
Proof.
  intros boot.
  destruct (bootstrap_broken first) as [Hcfg Hwire]. fold boot in Hcfg, Hwire.
  pose proof (steady_cycles_without_configs (poll :: polls) boot Hcfg) as Hst.
  split; [assumption|]. split; [assumption|]. split; [assumption|].
  split.
  - unfold main. destruct first as [|disk first]; [constructor|].
    cbn [snd]. fold boot. rewrite Hst.
    destruct (drain_wire net boot) as (new & -> & Hnew).
    rewrite Hwire. cbn [app].
    eapply Forall_impl; [|exact Hnew]. now intros a [H _].
  - unfold main. destruct first; [congruence | reflexivity].
Qed.

End BrokenTemplates.

(* ------------------------------------------------------------------ *)
(** ** The messages of one disk                                          *)
(* ------------------------------------------------------------------ *)

Lemma filter_by_same (who : string) (new : list attempt) :
  Forall (fun a => client_key a = who) new -> filter (by_client who) new = new.
Proof.
  induction 1 as [|a new Ha Hall IH]; simpl; [reflexivity|].
  unfold by_client at 1. now rewrite Ha, String.eqb_refl, IH.
Qed.

Lemma get_some_mem {V : Type} (k : string) (d : Dict.t V) (v : V) :
  Dict.get k d = Some v -> Dict.mem k d = true.
Proof. unfold Dict.mem. now intros ->. Qed.

Lemma get_cons_nodup {V : Type} (s k : string) (v values : V) (d : Dict.t V) :
  NoDup (Dict.keys ((k, v) :: d)) ->
  Dict.get s ((k, v) :: d) = Some values ->
  (k = s /\ v = values /\ Dict.mem s d = false)
  \/ (k <> s /\ Dict.get s d = Some values).
Proof.
  intros Hnd. inversion Hnd as [|? ? Hnotin _]; subst. simpl.
  destruct (String.eqb_spec k s) as [-> | Hne].
  - intros H. injection H as <-. left. repeat split.
    destruct (Dict.mem s d) eqn:E; [|reflexivity].
    apply mem_in_keys in E. contradiction.
  - auto.
Qed.

Section DiskMessages.

Variable net : nat -> bool.
Variable mqtt_topic : string.

(** X14. What a Steady cycle sends for a configured disk of the fresh
    snapshot: its state, once, not retained, on the topic of its client
    under [hdsentinel], as the document of its attributes under their
    lower-case names; then "online", unless that is what the client last
    recorded; and nothing else. *)
Theorem cycle_messages_of_a_disk
        (disks : snapshot) (w : World) (serial : string)
        (values : Dict.t xval) (config : Config) (c : HaCapableMqttClient) :
  NoDup (Dict.keys disks) ->
  Dict.get serial disks = Some values ->
  Dict.get serial (configs w) = Some config ->
  Dict.get serial (mqtt_clients w) = Some c ->
  map request
      (filter (by_client serial)
         (since (length (wire w)) (wire (steady_cycle net mqtt_topic w disks))))
  = Single (state_message c values)
    :: (if status_eqb "online" (published_status c) then []
        else [Single (status_message c "online")]).
Proof.
  revert w.
  induction disks as [|[k v] disks IH]; intros w Hnd Hval Hcfg Hc;
    [discriminate|].
  unfold steady_cycle. cbn [fold_left].
  fold (steady_cycle net mqtt_topic
          (process_disk net mqtt_topic w (k, v)) disks).
  destruct (get_cons_nodup serial k v values disks Hnd Hval)
    as [(-> & -> & Habsent) | (Hne & Hval')].
  - (* the disk itself; the rest of the snapshot does not name it *)
    destruct (steady_cycle_effect net mqtt_topic disks
                (process_disk net mqtt_topic w (serial, values)) serial)
      as (new2 & Hw2 & _ & Habs2 & _).
    destruct (Habs2 Habsent) as [Hnone _].
    rewrite Hw2. unfold process_disk. rewrite Hcfg, Hc.
    cbv beta iota zeta. rewrite main_loop_wire, publish_status_wire.
    destruct (status_eqb "online" (published_status c)); cbn [wire];
      rewrite <- !app_assoc, since_app, !filter_app, Hnone, app_nil_r;
      cbn [app filter]; unfold by_client; cbn [client_key];
      rewrite !String.eqb_refl; reflexivity.
  - (* another disk *)
    destruct (process_disk_effect net mqtt_topic w k v)
      as (new1 & Hw1 & Hc1 & Hall1 & Hget1 & _).
    assert (Hs : serial <> k) by congruence.
    assert (Hnd' : NoDup (Dict.keys disks)) by now inversion Hnd.
    specialize (IH (process_disk net mqtt_topic w (k, v)) Hnd' Hval').
    rewrite Hc1, (Hget1 serial Hs) in IH. specialize (IH Hcfg Hc).
    destruct (steady_cycle_effect net mqtt_topic disks
                (process_disk net mqtt_topic w (k, v)) serial)
      as (new2 & Hw2 & _).
    rewrite Hw2, Hw1, since_app in IH.
    rewrite Hw2, Hw1, <- app_assoc, since_app, filter_app,
      (filter_by_other serial k new1 Hs Hall1).
    exact IH.
Qed.

End DiskMessages.

(* ------------------------------------------------------------------ *)
(** ** The state document                                                *)
(* ------------------------------------------------------------------ *)

Lemma in_get_nodup {V : Type} (d : Dict.t V) (k : string) (v : V) :
  NoDup (Dict.keys d) -> In (k, v) d -> Dict.get k d = Some v.
Proof.
  induction d as [|[k0 v0] d IH]; simpl; intros Hnd Hin; [contradiction|].
  inversion Hnd as [|? ? Hnotin Hnd']; subst.
  destruct Hin as [Heq | Hin].
  - injection Heq as -> ->. now rewrite String.eqb_refl.
  - destruct (String.eqb_spec k0 k) as [-> | Hne]; [|auto].
    exfalso. apply Hnotin.
    change (In (fst (k, v)) (map fst d)). now apply in_map.
Qed.

Lemma lower_no_upper (s : string) :
  Text.forallb (fun c => negb (Text.is_upper c)) (Text.lower s) = true.
Proof.
  induction s as [|c s IH]; simpl; [reflexivity|].
  rewrite IH, andb_true_r. by_cases_on_char c.
Qed.

(** In [{k: v for k, v in items}] an item is stored when no later item
    has its key. *)
Lemma get_of_items_later {V : Type} (before after : list (string * V))
      (k : string) (v : V) :
  ~ In k (Dict.keys after) ->
  Dict.get k (Dict.of_items (before ++ (k, v) :: after)) = Some v.
Proof.
  intros Hnotin. unfold Dict.of_items, Dict.update.
  rewrite fold_left_app. cbn [fold_left fst snd].
  etransitivity; [exact (get_update_absent k _ after Hnotin)|].
  apply get_set_same.
Qed.

(** X15. The state document of a disk.  Every name in it is lower-case.
    An attribute of the report is published, under its lower-case name and
    with its raw value, whenever no attribute after it has the same
    lower-case name: of the attributes that differ by case only, the last
    one is the one published, wherever they stand in the report.  A name
    that no attribute has in lower case is not in the document.  And when
    no two attributes differ by case only, every attribute is published. *)
Theorem status_of_document (values : Dict.t xval) :
  Forall (fun kv => Text.forallb (fun c => negb (Text.is_upper c)) (fst kv) = true)
         (status_of values)
  /\ (forall before key value after,
        values = (before ++ (key, value) :: after)%list ->
        Forall (fun kv => Text.lower (fst kv) <> Text.lower key) after ->
        Dict.get (Text.lower key) (status_of values) = Some (xval_json value))
  /\ (forall name,
        Forall (fun kv => Text.lower (fst kv) <> name) values ->
        Dict.get name (status_of values) = None)
  /\ (NoDup (map (fun kv => Text.lower (fst kv)) values) ->
      forall key value,
        In (key, value) values ->
        Dict.get (Text.lower key) (status_of values) = Some (xval_json value)).
Proof.
  unfold status_of. split; [|split; [|split]].
  - unfold Dict.of_items. apply update_preserves; [constructor|].
    apply Forall_map, Forall_forall. intros kv _. apply lower_no_upper.
  - intros before key value after -> Hafter.
    rewrite map_app. cbn [map fst snd].
    apply get_of_items_later.
    unfold Dict.keys. rewrite map_map. cbn [fst].
    intros Hin. apply in_map_iff in Hin as (kv & Heq & Hin).
    rewrite Forall_forall in Hafter. exact (Hafter kv Hin Heq).
  - intros name Hnone. unfold Dict.of_items.
    rewrite get_update_absent; [reflexivity|].
    unfold Dict.keys. rewrite map_map. cbn [fst].
    intros Hin. apply in_map_iff in Hin as (kv & Heq & Hin).
    rewrite Forall_forall in Hnone. exact (Hnone kv Hin Heq).
  - intros Hnd key value Hin.
    unfold Dict.of_items.
    rewrite get_update.
    + rewrite (in_get_nodup _ (Text.lower key) (xval_json value));
        [reflexivity | |].
      * unfold Dict.keys. now rewrite map_map.
      * change (In ((fun kv => (Text.lower (fst kv), xval_json (snd kv)))
                      (key, value))
                   (map (fun kv => (Text.lower (fst kv), xval_json (snd kv)))
                        values)).
        now apply in_map.
    + unfold Dict.keys. now rewrite map_map.
Qed.

Lemma status_of_document_witness :
  Dict.get "temperature"
    (status_of [ ("Temperature", XText "38 C"); ("TEMPERATURE", XText "40 C");
                 ("Health", XText "100 %") ])
  = Some (JStr "40 C")
  /\ Dict.get "power_on_time"
       (status_of [ ("Temperature", XText "38 C");
                    ("TEMPERATURE", XText "40 C");
                    ("Health", XText "100 %") ])
     = None
  /\ Dict.get "hard_disk_health"
       (status_of [ ("Hard_Disk_Health", XText "100 %");
                    ("Temperature", XText "38 C") ])
     = Some (JStr "100 %").
Proof.
  split; [|split].
  - refine (proj1 (proj2 (status_of_document
                            [ ("Temperature", XText "38 C");
                              ("TEMPERATURE", XText "40 C");
                              ("Health", XText "100 %") ]))
              [ ("Temperature", XText "38 C") ] "TEMPERATURE" (XText "40 C")
              [ ("Health", XText "100 %") ] eq_refl _).
    repeat constructor. simpl. discriminate.
  - refine (proj1 (proj2 (proj2 (status_of_document
                                   [ ("Temperature", XText "38 C");
                                     ("TEMPERATURE", XText "40 C");
                                     ("Health", XText "100 %") ])))
              "power_on_time" _).
    repeat constructor; simpl; discriminate.
  - refine (proj2 (proj2 (proj2 (status_of_document
                                   [ ("Hard_Disk_Health", XText "100 %");
                                     ("Temperature", XText "38 C") ])))
              _ "Hard_Disk_Health" (XText "100 %") _).
    + repeat constructor; simpl; intuition discriminate.
    + simpl. auto.
Defined.

(* ------------------------------------------------------------------ *)
(** ** The sleep between two polls                                       *)
(* ------------------------------------------------------------------ *)

Lemma first_check_some (n i k : nat) (exiting : nat -> bool) :
  first_check n i exiting = Some k ->
  i <= k < i + n /\ exiting k = true
  /\ forall j, i <= j < k -> exiting j = false.
Proof.
  revert i.
  induction n as [|n IH]; simpl; intros i H; [discriminate|].
  destruct (exiting i) eqn:E.
  - injection H as <-. repeat split; [lia | lia | assumption | intros; lia].
  - apply IH in H as (Hk & Hex & Hbefore).
    repeat split; [lia | lia | assumption|].
    intros j Hj. destruct (Nat.eq_dec j i) as [-> | Hne]; [assumption|].
    apply Hbefore. lia.
Qed.

Lemma first_check_none (n i : nat) (exiting : nat -> bool) :
  first_check n i exiting = None ->
  forall j, i <= j < i + n -> exiting j = false.
Proof.
  revert i.
  induction n as [|n IH]; simpl; intros i H j Hj; [lia|].
  destruct (exiting i) eqn:E; [discriminate|].
  destruct (Nat.eq_dec j i) as [-> | Hne]; [assumption|].
  apply (IH (S i) H). lia.
Qed.

Lemma first_check_found (n i t : nat) (exiting : nat -> bool) :
  i <= t < i + n -> exiting t = true ->
  exists k, first_check n i exiting = Some k /\ k <= t.
Proof.
  intros Ht Hex.
  destruct (first_check n i exiting) as [k|] eqn:E.
  - exists k. split; [reflexivity|].
    apply first_check_some in E as (_ & _ & Hbefore).
    destruct (le_lt_dec k t) as [Hle | Hlt]; [assumption|].
    rewrite (Hbefore t) in Hex; [discriminate | lia].
  - rewrite (first_check_none n i exiting E t Ht) in Hex. discriminate.
Qed.

(** X16. The sleep between two polls makes [2 * update_interval] checks of
    the exit flag, half a second apart.  It leaves at the first check that
    finds the flag set, so within one check of the signal; it polls again
    only if no check found the flag.  With an interval of zero or less
    there is no check at all: the flag is never read, and a signal cannot
    end the loop. *)
Theorem interruptible_sleep_checks
        (update_interval : Z) (exiting : nat -> bool) :
  (forall k, interruptible_sleep update_interval exiting = Some k ->
     (Z.of_nat k < 2 * update_interval)%Z /\ exiting k = true
     /\ forall j, j < k -> exiting j = false)
  /\ (interruptible_sleep update_interval exiting = None ->
      forall j, (Z.of_nat j < 2 * update_interval)%Z -> exiting j = false)
  /\ (forall t, (Z.of_nat t < 2 * update_interval)%Z -> exiting t = true ->
        exists k, interruptible_sleep update_interval exiting = Some k
                  /\ k <= t)
  /\ ((update_interval <= 0)%Z ->
      interruptible_sleep update_interval exiting = None).
Proof.
  unfold interruptible_sleep.
  repeat split.
  - apply first_check_some in H as (Hk & _). lia.
  - now apply first_check_some in H.
  - intros j Hj. apply first_check_some in H as (_ & _ & Hbefore).
    apply Hbefore. lia.
  - intros H j Hj. apply (first_check_none _ 0 exiting H). lia.
  - intros t Ht Hex. apply first_check_found; [lia | assumption].
  - intros H. replace (Z.to_nat (update_interval * 2)) with 0 by lia.
    reflexivity.
Qed.

Lemma interruptible_sleep_checks_witness :
  interruptible_sleep 600 (fun i => Nat.leb 7 i) = Some 7
  /\ interruptible_sleep 0 (fun _ => true) = None
  /\ interruptible_sleep 1 (fun i => Nat.leb 7 i) = None.
Proof.
  split; [|split].
  - destruct (proj1 (proj2 (proj2 (interruptible_sleep_checks 600
                                     (fun i => Nat.leb 7 i)))) 7)
      as (k & Hk & Hle); [lia | reflexivity|].
    rewrite Hk. f_equal.
    destruct (proj1 (interruptible_sleep_checks 600 (fun i => Nat.leb 7 i)) k Hk)
      as (_ & Hex & _).
    apply Nat.leb_le in Hex. lia.
  - apply (proj2 (proj2 (proj2 (interruptible_sleep_checks 0
                                  (fun _ => true))))). lia.
  - reflexivity.
Defined.

(* ------------------------------------------------------------------ *)
(** ** A whole run                                                       *)
(* ------------------------------------------------------------------ *)

Lemma count_status_batches (who status : string) (w : list attempt) :
  Forall (fun a => is_batch a = true) w -> count_status who status w = 0.
Proof.
  unfold count_status.
  induction 1 as [|a w Ha Hw IH]; simpl; [reflexivity|].
  unfold is_status at 1. unfold is_batch in Ha.
  destruct (request a); [discriminate|].
  now rewrite andb_false_r.
Qed.

Lemma count_online_offline_attempts (who : string) (w : list attempt) :
  Forall (fun a => is_offline_attempt a = true /\ well_flagged a = true) w ->
  count_status who "online" w = 0.
Proof.
  unfold count_status.
  induction 1 as [|a w [Ha _] Hw IH]; simpl; [reflexivity|].
  unfold is_status at 1. unfold is_offline_attempt in Ha.
  destruct (request a) as [m|]; [|discriminate].
  destruct (msg_payload m) as [s|]; [|discriminate].
  apply String.eqb_eq in Ha. subst s. now rewrite andb_false_r.
Qed.

Lemma set_fresh {V : Type} (k : string) (v : V) (d : Dict.t V) :
  ~ In k (Dict.keys d) -> Dict.set k v d = (d ++ [(k, v)])%list.
Proof.
  induction d as [|[k0 v0] d IH]; simpl; intros H; [reflexivity|].
  destruct (String.eqb_spec k0 k) as [-> | Hne]; [intuition|].
  f_equal. apply IH. intuition.
Qed.

Section RunFacts.

Variable net : nat -> bool.
Variable mqtt_topic : string.
Variable config_yml : result raw_config.
Variable update_interval : Z.

Local Abbreviation boot_of first :=
  (bootstrap net mqtt_topic config_yml update_interval first).

Lemma bootstrap_only_batches (first : snapshot) :
  Forall (fun a => is_batch a = true) (wire (boot_of first)).
Proof.
  unfold bootstrap.
  assert (H : Forall (fun a => is_batch a = true) (wire empty_world))
    by constructor.
  revert H. generalize empty_world.
  induction first as [|disk first IH]; cbn [fold_left]; intros w Hw;
    [assumption|].
  apply IH.
  destruct (setup_disk_wire net mqtt_topic config_yml update_interval w disk)
    as [[-> _] | (config & -> & _)]; [assumption|].
  apply Forall_app. split; [assumption | repeat constructor].
Qed.

Lemma steady_cycles_online_bound (polls : list snapshot) (w : World)
      (s : string) :
  count_status s "online"
    (since (length (wire w)) (wire (steady_cycles net mqtt_topic w polls)))
  <= (if status_eqb "online" (status_in w s) then 0 else 1).
Proof.
  revert w.
  induction polls as [|disks polls IH]; intros w.
  - unfold steady_cycles. cbn [fold_left].
    rewrite <- (app_nil_r (wire w)) at 2. rewrite since_app. cbn. lia.
  - unfold steady_cycles. cbn [fold_left].
    fold (steady_cycles net mqtt_topic
            (steady_cycle net mqtt_topic w disks) polls).
    destruct (steady_cycle_effect net mqtt_topic disks w s)
      as (new1 & Hw1 & _ & _ & _ & _ & Hon1 & Hst1).
    destruct (steady_cycles_effect net mqtt_topic polls
                (steady_cycle net mqtt_topic w disks) s)
      as (new2 & Hw2 & _).
    specialize (IH (steady_cycle net mqtt_topic w disks)).
    rewrite Hw2, since_app, Hst1 in IH.
    rewrite Hw2, Hw1, <- app_assoc, since_app, count_status_app, Hon1.
    destruct (Dict.mem s disks && Dict.mem s (configs w));
      destruct (status_eqb "online" (status_in w s)) eqn:E;
      cbn in IH |- *; try rewrite E in IH; lia.
Qed.

(** X17. The availability of a disk over a whole run: through the client
    created for it at Bootstrapping, "online" is attempted at most once and
    "offline" exactly once, and "offline" is what the client holds at the
    end, whatever the snapshots and the answers of the transport. *)
Theorem run_availability
        (first poll : snapshot) (polls : list snapshot) (serial : string) :
  In serial (Dict.keys (mqtt_clients (boot_of first))) ->
  let final := snd (main net mqtt_topic config_yml update_interval
                      first poll polls) in
  count_status serial "online" (wire final) <= 1
  /\ count_status serial "offline" (wire final) = 1
  /\ status_in final serial = Some "offline".
Proof.
  intros Hin final.
  assert (Hfinal : final
                   = drain net (steady_cycles net mqtt_topic (boot_of first)
                                  (poll :: polls))).
  { unfold final, main. destruct first; [contradiction Hin | reflexivity]. }
  rewrite Hfinal. clear Hfinal final.
  set (boot := boot_of first) in *.
  set (w := steady_cycles net mqtt_topic boot (poll :: polls)).
  pose proof (steady_cycles_online_bound (poll :: polls) boot serial) as Hon.
  destruct (steady_cycles_effect net mqtt_topic (poll :: polls) boot serial)
    as (newc & Hwc & _ & Hmem & Hoffc & _ & Hnever).
  fold w in Hon, Hwc, Hmem, Hnever.
  rewrite Hwc, since_app in Hon.
  unfold boot in Hon at 1. rewrite bootstrap_status in Hon. cbn in Hon.
  apply mem_in_keys in Hin. specialize (Hmem Hin).
  assert (Hoff : status_eqb "offline" (status_in w serial) = false).
  { destruct (status_eqb "offline" (status_in w serial)) eqn:E;
      [|reflexivity].
    apply status_eqb_true in E. exfalso. revert E. apply Hnever.
    unfold boot. now rewrite bootstrap_status. }
  destruct (drain_wire net w) as (newd & Hwd & Hshape).
  destruct (drain_fold_effect net (Dict.keys (mqtt_clients w)) w serial)
    as (newd' & Hwd' & Hcount & Hst).
  fold (drain net w) in Hwd', Hst.
  assert (newd' = newd) as ->.
  { rewrite Hwd in Hwd'. now apply app_inv_head in Hwd'. }
  rewrite existsb_keys, Hmem, Hoff in Hcount. cbn in Hcount.
  rewrite existsb_keys, Hmem in Hst.
  pose proof (bootstrap_only_batches first) as Hboot. fold boot in Hboot.
  rewrite Hwd, Hwc, !count_status_app,
    !(count_status_batches serial _ _ Hboot), Hoffc, Hcount,
    (count_online_offline_attempts serial newd Hshape).
  repeat split; [lia | apply Hst; reflexivity].
Qed.

(** X18. Bootstrapping makes one call to the transport for every disk it
    configures, in the order of the snapshot: the batch of the discovery
    messages of that disk, one message per sensor. *)
Theorem bootstrap_batches (first : snapshot) :
  NoDup (Dict.keys first) ->
  map (fun a => (client_key a, request a)) (wire (boot_of first))
  = map (fun kc => (fst kc, Multiple (discovery_msgs (snd kc))))
        (configs (boot_of first)).
Proof.
  unfold bootstrap.
  assert (H : forall l w,
             NoDup (Dict.keys l) ->
             (forall k, In k (Dict.keys l) -> ~ In k (Dict.keys (configs w))) ->
             map (fun a => (client_key a, request a)) (wire w)
             = map (fun kc => (fst kc, Multiple (discovery_msgs (snd kc))))
                   (configs w) ->
             map (fun a => (client_key a, request a))
                 (wire (fold_left
                          (setup_disk net mqtt_topic config_yml update_interval)
                          l w))
             = map (fun kc => (fst kc, Multiple (discovery_msgs (snd kc))))
                   (configs
                      (fold_left
                         (setup_disk net mqtt_topic config_yml update_interval)
                         l w))).
  { induction l as [|[k values] l IHl]; cbn [fold_left]; intros w Hnd Hfresh Hw;
      [assumption|].
    inversion Hnd as [|? ? Hk Hnd']; subst.
    assert (Hfresh_k : ~ In k (Dict.keys (configs w)))
      by (apply Hfresh; simpl; auto).
    destruct (setup_disk_wire net mqtt_topic config_yml update_interval w
                (k, values)) as [[Hwire Hcfg] | (config & Hwire & Hcfg)];
      apply IHl; try assumption.
    - rewrite Hcfg. intros k' Hk'. apply Hfresh. simpl. auto.
    - now rewrite Hwire, Hcfg.
    - rewrite Hcfg. cbn [fst]. intros k' Hk' Hin.
      apply keys_set in Hin as [-> | Hin]; [contradiction|].
      revert Hin. apply Hfresh. simpl. auto.
    - rewrite Hwire, Hcfg. cbn [fst].
      rewrite (set_fresh k config (configs w) Hfresh_k), !map_app, Hw.
      reflexivity. }
  intros Hnd. apply H; [assumption | intros k _ [] | reflexivity].
Qed.

End RunFacts.

Lemma unregistered_disk_ignored_witness :
  ~ In "S13PJ90S113054"
      (Dict.keys
         (configs (bootstrap always_up "hdsentinel" (Ok templates_a) 600
                     [disk_a])))
  /\ filter (by_client "S13PJ90S113054")
       (since
          (length
             (wire (bootstrap always_up "hdsentinel" (Ok templates_a) 600
                      [disk_a])))
          (wire
             (steady_cycles always_up "hdsentinel"
                (bootstrap always_up "hdsentinel" (Ok templates_a) 600 [disk_a])
                [[disk_a; disk_b]; [disk_b]]))) = [].
Proof.
  assert (H : ~ In "S13PJ90S113054"
                (Dict.keys
                   (configs (bootstrap always_up "hdsentinel" (Ok templates_a)
                               600 [disk_a])))).
  { vm_compute. intros [H | []]. discriminate H. }
  split; [exact H|].
  apply (unregistered_disk_ignored always_up "hdsentinel"
           (bootstrap always_up "hdsentinel" (Ok templates_a) 600 [disk_a])
           [[disk_a; disk_b]; [disk_b]] "S13PJ90S113054" H).
Defined.

Lemma cycle_messages_of_a_disk_witness :
  map request
      (filter (by_client "S13PJ90S113060")
         (since (length (wire (booted always_up)))
            (wire (steady_cycle always_up "hdsentinel" (booted always_up)
                     [disk_a; disk_b]))))
  = [ Single
        (state_message
           (new_client "hdsentinel/samsung_hd103_uj_s13pj90s113060")
           (snd disk_a));
      Single
        (status_message
           (new_client "hdsentinel/samsung_hd103_uj_s13pj90s113060")
           "online") ].
Proof.
  eapply (cycle_messages_of_a_disk always_up "hdsentinel" [disk_a; disk_b]
            (booted always_up) "S13PJ90S113060" (snd disk_a) _
            (new_client "hdsentinel/samsung_hd103_uj_s13pj90s113060")).
  - repeat constructor; simpl; intuition discriminate.
  - reflexivity.
  - vm_compute. reflexivity.
  - reflexivity.
Defined.

Lemma run_availability_witness :
  count_status "S13PJ90S113060" "online"
    (wire (snd (main always_down "hdsentinel" (Ok templates_a) 600
                  [disk_a; disk_b] [disk_a; disk_b] [[disk_a]; []]))) <= 1
  /\ count_status "S13PJ90S113060" "offline"
       (wire (snd (main always_down "hdsentinel" (Ok templates_a) 600
                     [disk_a; disk_b] [disk_a; disk_b] [[disk_a]; []]))) = 1
  /\ status_in
       (snd (main always_down "hdsentinel" (Ok templates_a) 600
               [disk_a; disk_b] [disk_a; disk_b] [[disk_a]; []]))
       "S13PJ90S113060" = Some "offline".
Proof.
  apply (run_availability always_down "hdsentinel" (Ok templates_a) 600
           [disk_a; disk_b] [disk_a; disk_b] [[disk_a]; []] "S13PJ90S113060").
  vm_compute. left. reflexivity.
Defined.

Lemma bootstrap_batches_witness :
  map (fun a => client_key a) (wire (booted always_up))
  = ["S13PJ90S113060"; "S13PJ90S113054"]
  /\ map (fun a => (client_key a, request a)) (wire (booted always_up))
     = map (fun kc => (fst kc, Multiple (discovery_msgs (snd kc))))
           (configs (booted always_up)).
Proof.
  split; [reflexivity|].
  apply (bootstrap_batches always_up "hdsentinel" (Ok templates_a) 600
           [disk_a; disk_b]).
  repeat constructor; simpl; intuition discriminate.
Defined.

(* ------------------------------------------------------------------ *)
(** ** Announced topics and topics used                                  *)
(* ------------------------------------------------------------------ *)

Section TopicFacts.

Variable net : nat -> bool.
Variable mqtt_topic : string.
Variable update_interval : Z.

Lemma in_keys_filter {V : Type} (f : string * V -> bool) (d : Dict.t V)
      (k : string) :
  In k (Dict.keys (filter f d)) -> In k (Dict.keys d).
Proof.
  unfold Dict.keys. intros H.
  apply in_map_iff in H as (kv & <- & Hin).
  apply filter_In in Hin as [Hin _]. now apply in_map.
Qed.

Lemma in_expansion_order (raw : raw_config) (kinds : list string)
      (kind : string) (item : string * template) :
  In (kind, item) (expansion_order raw kinds) ->
  In kind kinds /\ In item (raw_sensors raw kind).
Proof.
  unfold expansion_order. intros H.
  apply in_flat_map in H as (kind0 & Hkind & H).
  apply in_map_iff in H as (item0 & Heq & Hitem).
  injection Heq as -> ->.
  split; [assumption|].
  eapply Permutation_in; [|exact Hitem].
  apply Permutation_sym, sorted_items_perm.
Qed.

(** A template that sets no topic field gives a descriptor with the
    generated ones. *)
Lemma descriptor_announces (serial alias_ : string) (model firmware : json)
      (st av kind : string) (item : string * template) :
  (forall field,
      In field topic_fields ->
      Dict.get field (template_body (snd item)) = None) ->
  announces
    (descriptor_of serial alias_ model firmware st av update_interval kind item)
    st av.
Proof.
  intros Hkeeps.
  assert (Habsent : forall field,
             In field topic_fields ->
             ~ In field
                 (Dict.keys
                    (snd (pop_internal_config (template_body (snd item)))))).
  { intros field Hfield Hin. unfold pop_internal_config in Hin.
    cbn [snd] in Hin. apply in_keys_filter in Hin.
    apply get_in_keys in Hin as [v Hv].
    rewrite (Hkeeps field Hfield) in Hv. discriminate. }
  unfold announces, descriptor_of, get_device_descriptor, fields_of.
  cbn [payload].
  fold (template_body (snd item)).
  repeat split.
  - rewrite get_update_absent; [reflexivity|].
    apply Habsent. simpl. auto.
  - rewrite get_update_absent; [reflexivity|].
    apply Habsent. simpl. auto.
  - rewrite get_update_absent; [reflexivity|].
    apply Habsent. simpl. auto.
Qed.

Lemma Config_init_announces (raw : raw_config) (serial alias_ : string)
      (model firmware : json) (st av : string) (config : Config) :
  keeps_topics raw ->
  Config_init serial alias_ model firmware st av update_interval (Ok raw)
  = Ok config ->
  alias config = alias_
  /\ Forall (fun sensor => announces sensor st av) (sensors config).
Proof.
  intros Hkeeps H.
  split.
  - unfold Config_init in H. cbn [bind] in H.
    destruct (expand_kinds _ _ _ _ _ _ _ _ _ _); cbn [bind] in H;
      [|discriminate].
    now injection H as <-.
  - rewrite (Config_init_sensors _ _ _ _ _ _ _ raw config H).
    apply Forall_map, Forall_forall. intros [kind [name t]] Hin.
    cbn [fst snd].
    apply in_expansion_order in Hin as [Hkind Hitem].
    apply descriptor_announces. intros field Hfield.
    exact (Hkeeps kind name t field Hkind Hitem Hfield).
Qed.

Lemma setup_disk_topics (raw : raw_config) (w : World)
      (disk : string * Dict.t xval) :
  keeps_topics raw ->
  ~ In (fst disk) (Dict.keys (configs w)) ->
  topics_match mqtt_topic w ->
  topics_match mqtt_topic
    (setup_disk net mqtt_topic (Ok raw) update_interval w disk).
Proof.
  destruct disk as [k values]. cbn [fst]. intros Hkeeps Hfresh Hw.
  unfold setup_disk.
  destruct (model_argument _) as [model_id|e]; [|assumption].
  set (alias_ := build_disk_alias model_id (Some k)).
  destruct (Config_init _ _ _ _ _ _ _ _) as [config|e] eqn:E;
    intros s cfg; cbn [configs mqtt_clients].
  - destruct (String.eqb_spec k s) as [<- | Hne].
    + rewrite !get_set_same. intros Hcfg. injection Hcfg as <-.
      apply Config_init_announces in E as [Halias Hbuilt]; [|assumption].
      eexists. split; [reflexivity|].
      unfold topics_agree. rewrite Halias.
      split; [reflexivity|]. split; [reflexivity|].
      exact Hbuilt.
    + rewrite !get_set_other by assumption. apply Hw.
  - destruct (String.eqb_spec k s) as [<- | Hne].
    + intros Hcfg. exfalso. apply Hfresh, get_in_keys. eauto.
    + rewrite get_set_other by assumption. apply Hw.
Qed.

Lemma bootstrap_topics (raw : raw_config) (first : snapshot) :
  keeps_topics raw ->
  NoDup (Dict.keys first) ->
  topics_match mqtt_topic
    (bootstrap net mqtt_topic (Ok raw) update_interval first).
Proof.
  intros Hkeeps. unfold bootstrap.
  assert (H : forall l w,
             NoDup (Dict.keys l) ->
             (forall k, In k (Dict.keys l) -> ~ In k (Dict.keys (configs w))) ->
             topics_match mqtt_topic w ->
             topics_match mqtt_topic
               (fold_left
                  (setup_disk net mqtt_topic (Ok raw) update_interval) l w)).
  { induction l as [|[k values] l IHl]; cbn [fold_left]; intros w Hnd Hfresh Hw;
      [assumption|].
    inversion Hnd as [|? ? Hk Hnd']; subst.
    apply IHl; [assumption| |].
    - intros k' Hk' Hin.
      destruct (setup_disk_wire net mqtt_topic (Ok raw) update_interval w
                  (k, values)) as [[_ Hcfg] | (config & _ & Hcfg)];
        rewrite Hcfg in Hin.
      + revert Hin. apply Hfresh. simpl. auto.
      + cbn [fst] in Hin. apply keys_set in Hin as [-> | Hin];
          [contradiction|].
        revert Hin. apply Hfresh. simpl. auto.
    - apply setup_disk_topics; [assumption| |assumption].
      apply Hfresh. simpl. auto. }
  intros Hnd. apply H; [assumption | intros k _ [] |].
  intros s cfg Hcfg. discriminate.
Qed.

Lemma process_disk_topics (w : World) (disk : string * Dict.t xval) :
  topics_match mqtt_topic w ->
  topics_match mqtt_topic (process_disk net mqtt_topic w disk).
Proof.
  intros Hw. destruct disk as [k values]. unfold process_disk.
  destruct (Dict.get k (configs w)) as [config|] eqn:Hcfg; [|assumption].
  destruct (Hw k config Hcfg) as (c & Hc & Hst & Hav & Hbuilt).
  rewrite Hc.
  destruct (main_loop_effect net k c (get_abs_topic c ["hdsentinel"]) config
              values (wire w)) as (new & -> & _).
  intros s cfg. cbn [configs mqtt_clients].
  destruct (String.eqb_spec k s) as [<- | Hne].
  - rewrite get_set_same, Hcfg. intros H. injection H as <-.
    eexists. split; [reflexivity|].
    split; [exact Hst|]. split; [exact Hav | exact Hbuilt].
  - rewrite get_set_other by assumption. apply Hw.
Qed.

Lemma steady_cycles_topics (polls : list snapshot) (w : World) :
  topics_match mqtt_topic w ->
  topics_match mqtt_topic (steady_cycles net mqtt_topic w polls).
Proof.
  unfold steady_cycles. revert w.
  induction polls as [|disks polls IH]; cbn [fold_left]; intros w Hw;
    [assumption|].
  apply IH. unfold steady_cycle. clear IH. revert w Hw.
  induction disks as [|disk disks IH]; cbn [fold_left]; intros w Hw;
    [assumption|].
  apply IH. now apply process_disk_topics.
Qed.

(** X19. With templates that set none of the fields [state_topic],
    [json_attributes_topic] and [availability_topic] themselves, the
    topics a disk is announced with are the topics it is published on.  In
    every world of a run, the client of a configured disk publishes its
    state on [MQTT_TOPIC/alias/hdsentinel] and its availability on
    [MQTT_TOPIC/alias/availability], and in every discovery payload of
    the disk the fields [state_topic] and [json_attributes_topic] hold the
    first of these topics and the field [availability_topic] the second. *)
Theorem announced_topics_are_used
        (raw : raw_config) (first : snapshot) (polls : list snapshot)
        (serial : string) (config : Config) :
  keeps_topics raw ->
  NoDup (Dict.keys first) ->
  let w := steady_cycles net mqtt_topic
             (bootstrap net mqtt_topic (Ok raw) update_interval first) polls in
  Dict.get serial (configs w) = Some config ->
  exists c,
    Dict.get serial (mqtt_clients w) = Some c
    /\ get_abs_topic c ["hdsentinel"]
       = state_topic_of mqtt_topic (alias config)
    /\ status_topic c = availability_topic_of mqtt_topic (alias config)
    /\ Forall (fun sensor =>
                 Dict.get "state_topic" (fields_of sensor)
                 = Some (JStr (get_abs_topic c ["hdsentinel"]))
                 /\ Dict.get "json_attributes_topic" (fields_of sensor)
                    = Some (JStr (get_abs_topic c ["hdsentinel"]))
                 /\ Dict.get "availability_topic" (fields_of sensor)
                    = Some (JStr (status_topic c)))
              (sensors config).
Proof.
  intros Hkeeps Hnd w Hcfg.
  destruct (steady_cycles_topics polls _ (bootstrap_topics raw first Hkeeps Hnd)
              serial config Hcfg) as (c & Hc & Hst & Hav & Hall).
  exists c. split; [exact Hc|].
  split; [exact Hst|]. split; [exact Hav | exact Hall].
Qed.

End TopicFacts.

Lemma announced_topics_are_used_witness :
  exists c,
    Dict.get "S13PJ90S113060"
      (mqtt_clients
         (steady_cycles always_up "hdsentinel" (booted always_up)
            [[disk_a; disk_b]; [disk_b]])) = Some c
    /\ get_abs_topic c ["hdsentinel"]
       = "hdsentinel/samsung_hd103_uj_s13pj90s113060/hdsentinel"
    /\ status_topic c
       = "hdsentinel/samsung_hd103_uj_s13pj90s113060/availability".
Proof.
  assert (Hkeeps : keeps_topics templates_a).
  { intros kind name t field Hkind Hitem Hfield.
    destruct Hkind as [<- | [<- | []]]; vm_compute in Hitem;
      [contradiction|].
    destruct Hitem as [H | [H | []]]; injection H as <- <-;
      destruct Hfield as [<- | [<- | [<- | []]]]; reflexivity. }
  assert (Hnd : NoDup (Dict.keys [disk_a; disk_b])).
  { repeat constructor; simpl; intuition discriminate. }
  assert (Hcfg : exists config,
             Dict.get "S13PJ90S113060"
               (configs
                  (steady_cycles always_up "hdsentinel"
                     (bootstrap always_up "hdsentinel" (Ok templates_a) 600
                        [disk_a; disk_b])
                     [[disk_a; disk_b]; [disk_b]])) = Some config
             /\ alias config = "samsung_hd103_uj_s13pj90s113060").
  { eexists. split; vm_compute; reflexivity. }
  destruct Hcfg as (config & Hcfg & Halias).
  destruct (announced_topics_are_used always_up "hdsentinel" 600 templates_a
              [disk_a; disk_b] [[disk_a; disk_b]; [disk_b]]
              "S13PJ90S113060" config Hkeeps Hnd Hcfg)
    as (c & Hc & Hst & Hav & _).
  exists c. rewrite Halias in Hst, Hav. split; [exact Hc|].
  split; [exact Hst | exact Hav].
Defined.

(** A template that names a state topic of its own is announced with
    that topic, while the state of the disk still goes to the topic of its
    client: the generated field is replaced. *)
Lemma own_state_topic_is_announced :
  let w := bootstrap always_up "hdsentinel" (Ok templates_elsewhere) 600
             [disk_a] in
  map (fun sensor => Dict.get "state_topic" (fields_of sensor))
      (match Dict.get "S13PJ90S113060" (configs w) with
       | Some config => sensors config
       | None => []
       end)
  = [Some (JStr "elsewhere/state")]
  /\ option_map (fun c => get_abs_topic c ["hdsentinel"])
       (Dict.get "S13PJ90S113060" (mqtt_clients w))
     = Some "hdsentinel/samsung_hd103_uj_s13pj90s113060/hdsentinel".
Proof.
  split; vm_compute; reflexivity.
Qed.
